(** * FRACTRAN: factorizer, execution engine and register-program synthesizer

    A shallow embedding of [fractran.py] (classes [f_int] and
    [FractionGame]) together with the properties of its specification.

    Conventions of the embedding:
    - a Python [int] is a [Z]; [%] and [//] are [Z.modulo] and [Z.div]
      (both round towards minus infinity, as Python does), except that a
      zero divisor raises [ZeroDivisionError], which is written out;
    - a Python [dict] is an association list in insertion order: iteration
      order is observable through the emitted program text;
    - a Python exception is the [Raise] outcome of [result]; a method that
      mutates [self] is a function from the object to an outcome and the
      object as the method left it;
    - a Python [float] is an IEEE 754 binary64 number: the conversion of an
      [int] rounds to 53 significant bits and overflows when the rounded
      value reaches 2^1024, and the square root is rounded again before
      [int] truncates it;
    - the text of an [int] is its decimal numeral, whatever its length: the
      limit that recent interpreters put on the digits of such a
      conversion is a setting of the interpreter and is not modelled;
    - [while] loops run on fuel; [OutOfFuel] is an outcome of its own, and
      the theorems show that the fuel handed to each loop is enough. *)

From Stdlib Require Import ZArith Znumtheory List Bool Lia String Ascii.
From Stdlib Require Import DecimalString Sorted.
From Stdlib Require Import Uint63.
Import ListNotations.
Local Open Scope Z_scope.

(** ** Exceptions and outcomes *)

(** The five [raise RuntimeError(...)] sites of [FractionGame.__init__]. *)
Inductive config_failure : Type :=
| StartNotInt
| FractionNotTuple
| FractionNotPair
| NumeratorNotInt
| DenominatorNotInt.

Inductive exn : Type :=
| RuntimeError (why : config_failure)
| TypeError
| ZeroDivisionError
| IndexError
| UnboundLocalError
| ValueError
| OverflowError.

Inductive result (A : Type) : Type :=
| Ok (a : A)
| Raise (e : exn)
| OutOfFuel.

Arguments Ok {A} a.
Arguments Raise {A} e.
Arguments OutOfFuel {A}.

Definition rbind {A B : Type} (r : result A) (k : A -> result B) : result B :=
  match r with
  | Ok a => k a
  | Raise e => Raise e
  | OutOfFuel => OutOfFuel
  end.

Declare Scope result_scope.
Delimit Scope result_scope with result.
Notation "'let?' x ':=' r 'in' k" := (rbind r (fun x => k))
  (at level 10, x pattern, r at level 100, k at level 200) : result_scope.
Local Open Scope result_scope.

(** ** Integer arithmetic of the host language *)

(** [a % b] *)
Definition py_mod (a b : Z) : result Z :=
  if b =? 0 then Raise ZeroDivisionError else Ok (a mod b).

(** [a // b] *)
Definition py_floordiv (a b : Z) : result Z :=
  if b =? 0 then Raise ZeroDivisionError else Ok (a / b).

(** ** Text of the host language *)

Definition tab : string := String (ascii_of_nat 9) EmptyString.
Definition newline : string := String (ascii_of_nat 10) EmptyString.

(** [str(z)] and the [{z}] of an f-string, for an [int]. *)
Definition str (z : Z) : string := NilZero.string_of_int (Z.to_int z).

(** [sep.join(parts)] *)
Definition join (sep : string) (parts : list string) : string :=
  String.concat sep parts.

Definition byte (n : Z) : string :=
  String (ascii_of_N (Z.to_N n)) EmptyString.

(** [chr(n)], the character as its UTF-8 bytes. *)
Definition chr (n : Z) : result string :=
  if (n <? 0) || (1114111 <? n) then Raise ValueError
  else if n <? 128 then Ok (byte n)
  else if n <? 2048 then
    Ok (byte (192 + n / 64) ++ byte (128 + n mod 64))%string
  else if n <? 65536 then
    Ok (byte (224 + n / 4096) ++ byte (128 + (n / 64) mod 64)
        ++ byte (128 + n mod 64))%string
  else
    Ok (byte (240 + n / 262144) ++ byte (128 + (n / 4096) mod 64)
        ++ byte (128 + (n / 64) mod 64) ++ byte (128 + n mod 64))%string.

(** [sorted(keys)] for integers. *)
Fixpoint insert_sorted (x : Z) (l : list Z) : list Z :=
  match l with
  | [] => [x]
  | y :: l' => if x <=? y then x :: l else y :: insert_sorted x l'
  end.

Definition sorted (l : list Z) : list Z :=
  fold_right insert_sorted [] l.

(** ** Python dictionaries with integer keys and values *)

Module Dict.

Definition t : Type := list (Z * Z).

Definition empty : t := [].

(** [d[k]] as an option: [None] where Python raises [KeyError]. *)
Fixpoint get (k : Z) (d : t) : option Z :=
  match d with
  | [] => None
  | (k', v) :: d' => if k' =? k then Some v else get k d'
  end.

(** [k in d] *)
Definition mem (k : Z) (d : t) : bool :=
  match get k d with Some _ => true | None => false end.

(** [d[k] = v]: an existing key keeps its position, a new key goes last. *)
Fixpoint set (k v : Z) (d : t) : t :=
  match d with
  | [] => [(k, v)]
  | (k', v') :: d' =>
      if k' =? k then (k', v) :: d' else (k', v') :: set k v d'
  end.

(** [d.keys()], in iteration order. *)
Definition keys (d : t) : list Z := map fst d.

(** [d.values()] *)
Definition values (d : t) : list Z := map snd d.

End Dict.

(** ** Floating point of the host language *)

(** What [int(a ** 0.5)] goes through.  The power of an [int] to a [float]
    converts the [int] to binary64, takes the power there and returns a
    [float], or a [complex] for a negative base; [int] then truncates. *)
Module binary64.

(** The nearest number of at most 53 significant bits to an integer
    [n >= 0], ties going to the even mantissa.  It is an integer. *)
Definition round53 (n : Z) : Z :=
  let shift := Z.log2 n + 1 - 53 in
  if shift <=? 0 then n
  else
    let m := n / 2 ^ shift in
    let rest := n mod 2 ^ shift in
    let half := 2 ^ (shift - 1) in
    let m' := match rest ?= half with
              | Lt => m
              | Gt => m + 1
              | Eq => if Z.even m then m else m + 1
              end in
    m' * 2 ^ shift.

(** [float(a)] for an [int]: the nearest binary64 number, which is an
    integer; [OverflowError] (int too large to convert to float) when the
    rounded value is not below 2^1024. *)
Definition of_int (a : Z) : result Z :=
  let x := round53 (Z.abs a) in
  if 2 ^ 1024 <=? x then Raise OverflowError else Ok (Z.sgn a * x).

(** A binary64 number [mantissa * 2 ^ exponent]. *)
Record t : Type := mk { mantissa : Z; exponent : Z }.

(** The square root of an integer-valued binary64 number [x >= 0], rounded
    to the nearest number of 53 significant bits: with [e] the exponent
    that puts the mantissa in [2^52, 2^53), the mantissa is the integer
    nearest to [sqrt (x / 4^e)]. *)
Definition sqrt (x : Z) : t :=
  if x <=? 0 then mk 0 0
  else
    let e := Z.log2 (Z.sqrt x) - 52 in
    let num := x * 4 ^ Z.max 0 (- e) in
    let den := 4 ^ Z.max 0 e in
    let m := Z.sqrt (num / den) in
    let m' := match 4 * num ?= (2 * m + 1) ^ 2 * den with
              | Lt => m
              | Gt => m + 1
              | Eq => if Z.even m then m else m + 1
              end in
    mk m' e.

(** The value of [x ** 0.5]. *)
Inductive power : Type :=
| Real (y : t)
| Complex.

(** [x ** 0.5] for a [float] [x]: a negative base gives a complex number.
    Otherwise the [pow] of the C library is called, whose last bit the
    language does not fix; it is taken to return the correctly rounded
    root.  (Below 2^52, where the theorems use the value of the root, it
    is enough that [pow] is exact on the squares and off by less than one
    unit in the last place elsewhere: the truncation is then the integer
    square root.) *)
Definition pow_half (x : Z) : power :=
  if x <? 0 then Complex else Real (sqrt x).

(** [int(y)]: truncation towards zero; [TypeError] for a [complex]. *)
Definition to_int (y : power) : result Z :=
  match y with
  | Complex => Raise TypeError
  | Real y =>
      Ok (if 0 <=? exponent y then mantissa y * 2 ^ exponent y
          else Z.quot (mantissa y) (2 ^ (- exponent y)))
  end.

End binary64.

(** ** Class [f_int]: an integer as the product of its prime factors *)

Module f_int.

(** [range(lo, hi)] *)
Definition range (lo hi : Z) : list Z :=
  map (fun k => lo + Z.of_nat k) (seq 0 (Z.to_nat (hi - lo))).

(** [int(a ** 0.5)]: [a] is converted to a [float] ([OverflowError] when
    it is too large), the power is a [float] or, for a negative [a], a
    [complex], on which [int] raises [TypeError]. *)
Definition int_sqrt (a : Z) : result Z :=
  let? x := binary64.of_int a in
  binary64.to_int (binary64.pow_half x).

(** Lines 15-18: count one more occurrence of [i]. *)
Definition count_factor (i : Z) (factors : Dict.t) : Dict.t :=
  match Dict.get i factors with
  | None => Dict.set i 1 factors
  | Some c => Dict.set i (c + 1) factors
  end.

(** Lines 14-19: [while a % i == 0: ...; a //= i].  The loop variable
    [i] comes from [range(2, ...)] and is never 0. *)
Fixpoint divide_out (fuel : nat) (i : Z) (factors : Dict.t) (a : Z)
  : result (Dict.t * Z) :=
  let? r := py_mod a i in
  if negb (r =? 0) then Ok (factors, a)
  else match fuel with
       | O => OutOfFuel
       | S fuel' =>
           let? q := py_floordiv a i in
           divide_out fuel' i (count_factor i factors) q
       end.

(** Fuel for [divide_out]: each round at least halves [a]. *)
Definition divide_fuel (a : Z) : nat := S (Z.to_nat (Z.log2 a)).

(** Lines 13-19: the [for] loop over the candidate divisors. *)
Fixpoint trial_division (candidates : list Z) (factors : Dict.t) (a : Z)
  : result (Dict.t * Z) :=
  match candidates with
  | [] => Ok (factors, a)
  | i :: rest =>
      let? (factors', a') := divide_out (divide_fuel a) i factors a in
      trial_division rest factors' a'
  end.

(** Lines 7-26. *)
Definition factorize (a : Z) : result Dict.t :=
  let? bound := int_sqrt a in
  let? (factors, a') := trial_division (range 2 (bound + 1)) Dict.empty a in
  if a' >? 1 then Ok (count_factor a' factors) else Ok factors.

(** [n = prod prime^exponent], the reading of a factor dictionary. *)
Definition product (factors : Dict.t) : Z :=
  fold_right (fun kv acc => fst kv ^ snd kv * acc) 1 factors.

End f_int.

(** ** Methods: state and exceptions *)

(** A method body run on the object [self]: its outcome and the object as
    the body left it (an exception does not roll mutations back). *)
Definition method (S A : Type) : Type := S -> result A * S.

Definition mret {S A : Type} (a : A) : method S A := fun s => (Ok a, s).

Definition mbind {S A B : Type} (m : method S A) (k : A -> method S B)
  : method S B :=
  fun s =>
    match m s with
    | (Ok a, s') => k a s'
    | (Raise e, s') => (Raise e, s')
    | (OutOfFuel, s') => (OutOfFuel, s')
    end.

Definition lift {S A : Type} (r : result A) : method S A := fun s => (r, s).

Definition read {S A : Type} (attr : S -> A) : method S A :=
  fun s => (Ok (attr s), s).

Definition modify {S : Type} (upd : S -> S) : method S unit :=
  fun s => (Ok tt, upd s).

Declare Scope method_scope.
Delimit Scope method_scope with method.
Notation "x <- m ;; k" := (mbind m (fun x => k))
  (at level 61, m at next level, right associativity) : method_scope.
Notation "m ;;; k" := (mbind m (fun _ => k))
  (at level 61, right associativity) : method_scope.

(** ** Dynamically typed arguments *)

(** The values a caller can hand to the constructor. *)
#[local] Set Warnings "-register-all".
Inductive value : Type :=
| VInt (z : Z)
| VBool (b : bool)
| VFloat (mantissa exponent : Z)
| VStr (s : string)
| VNone
| VTuple (items : list value)
| VList (items : list value).

(** ** Class [FractionGame] *)

Module FractionGame.

Record t : Type := mk {
  f : list (Z * Z);
  N : list Z;
  transitions : list nat;
  registers : Dict.t
}.

Definition set_f (fs : list (Z * Z)) (self : t) : t :=
  mk fs (N self) (transitions self) (registers self).
Definition set_N (trace : list Z) (self : t) : t :=
  mk (f self) trace (transitions self) (registers self).
Definition set_transitions (ts : list nat) (self : t) : t :=
  mk (f self) (N self) ts (registers self).
Definition set_registers (regs : Dict.t) (self : t) : t :=
  mk (f self) (N self) (transitions self) regs.

(** [self.N.append(x)] and [self.transitions.append(i)] *)
Definition append_N (x : Z) (self : t) : t := set_N (N self ++ [x]) self.
Definition append_transition (i : nat) (self : t) : t :=
  set_transitions (transitions self ++ [i]) self.

(** [l[-1]] *)
Fixpoint last_entry (l : list Z) : result Z :=
  match l with
  | [] => Raise IndexError
  | [x] => Ok x
  | _ :: l' => last_entry l'
  end.

(** [l[0]] *)
Definition first_entry (l : list Z) : result Z :=
  match l with
  | [] => Raise IndexError
  | x :: _ => Ok x
  end.

(** Lines 73-74 and 76-77: [for factor in factors: registers[factor] = 0] *)
Definition zero_all (factors : Dict.t) (regs : Dict.t) : Dict.t :=
  fold_left (fun acc factor => Dict.set factor 0 acc) (Dict.keys factors) regs.

(** Lines 71-77: the loop of [get_registers]. *)
Fixpoint collect_registers (fs : list (Z * Z)) (regs : Dict.t)
  : result Dict.t :=
  match fs with
  | [] => Ok regs
  | (n, d) :: rest =>
      let? numerator := f_int.factorize n in
      let regs := zero_all numerator regs in
      let? denominator := f_int.factorize d in
      let regs := zero_all denominator regs in
      collect_registers rest regs
  end.

(** Lines 65-78. *)
Definition get_registers : method t Dict.t :=
  (fs <- read f ;; lift (collect_registers fs Dict.empty))%method.

(** Lines 39-46: the checks on one positional argument. *)
Definition check_fraction (frac : value) : result (Z * Z) :=
  match frac with
  | VTuple items =>
      match items with
      | [numerator; denominator] =>
          match numerator with
          | VInt n =>
              match denominator with
              | VInt d => Ok (n, d)
              | _ => Raise (RuntimeError DenominatorNotInt)
              end
          | _ => Raise (RuntimeError NumeratorNotInt)
          end
      | _ => Raise (RuntimeError FractionNotPair)
      end
  | _ => Raise (RuntimeError FractionNotTuple)
  end.

(** Lines 38-46: the loop over the positional arguments. *)
Fixpoint check_fractions (args : list value) : result (list (Z * Z)) :=
  match args with
  | [] => Ok []
  | frac :: rest =>
      let? fraction := check_fraction frac in
      let? fractions := check_fractions rest in
      Ok (fraction :: fractions)
  end.

(** Lines 35-52. *)
Definition __init__ (args : list value) (N_0 : value) : method t unit :=
  (n0 <- lift (match N_0 with
               | VInt n0 => Ok n0
               | _ => Raise (RuntimeError StartNotInt)
               end) ;;
   fs <- lift (check_fractions args) ;;
   modify (set_f fs) ;;;
   modify (set_N [n0]) ;;;
   modify (set_transitions []) ;;;
   regs <- get_registers ;;
   modify (set_registers regs))%method.

(** A freshly allocated object, before [__init__] has given it any
    attribute; [__init__] overwrites every field. *)
Definition blank : t := mk [] [] [] Dict.empty.

(** The call of the class on the positional arguments [args] and the
    keyword [N_0]: the object is handed to the caller only when
    [__init__] returns. *)
Definition new (args : list value) (N_0 : value) : result t :=
  match __init__ args N_0 blank with
  | (Ok _, self) => Ok self
  | (Raise e, _) => Raise e
  | (OutOfFuel, _) => OutOfFuel
  end.

(** Lines 90-91: the factors of the starting value are written over
    [registers], which is [self.registers] itself and not a copy. *)
Definition overlay (N_0_factors : Dict.t) (regs : Dict.t) : Dict.t :=
  fold_left (fun acc kv => Dict.set (fst kv) (snd kv) acc) N_0_factors regs.

(** Lines 92-93. *)
Definition register_lines (regs : Dict.t) : list string :=
  map (fun factor =>
         ("registers[" ++ str factor ++ "] = "
          ++ str (match Dict.get factor regs with
                  | Some v => v
                  | None => 0
                  end))%string)
      (sorted (Dict.keys regs)).

(** Lines 99-119: the lines of one fraction, and [endloop]. *)
Definition fraction_lines (i : nat) (fr : Z * Z)
  : result (list string * bool) :=
  let? numerator := f_int.factorize (fst fr) in
  let? denominator := f_int.factorize (snd fr) in
  let conditions :=
    map (fun kv =>
           ("registers[" ++ str (fst kv) ++ "] >= " ++ str (snd kv))%string)
        denominator in
  let? letter := chr (Z.of_nat i + 65) in
  let label :=
    (" # fraction " ++ letter
     ++ " (" ++ str (fst fr) ++ "/" ++ str (snd fr) ++ ")")%string in
  let guard := ("(" ++ join ") & (" conditions ++ "):")%string in
  let head :=
    if (i =? 0)%nat then ((tab ++ "if " ++ guard ++ label)%string, false)
    else if snd fr =? 1 then ((tab ++ "else:" ++ label)%string, true)
    else ((tab ++ "elif " ++ guard ++ label)%string, false) in
  let body :=
    if fst fr =? 0 then [(tab ++ tab ++ "registers.clear()")%string]
    else
      map (fun kv =>
             (tab ++ tab ++ "registers[" ++ str (fst kv) ++ "] -= "
              ++ str (snd kv))%string) denominator
      ++ map (fun kv =>
                (tab ++ tab ++ "registers[" ++ str (fst kv) ++ "] += "
                 ++ str (snd kv))%string) numerator in
  Ok (fst head :: body, snd head).

(** Lines 98-119: the loop over the fractions.  [endloop] is assigned
    anew in every round; it is unbound until the first one. *)
Fixpoint chain_lines (i : nat) (fs : list (Z * Z)) (endloop : option bool)
  : result (list string * option bool) :=
  match fs with
  | [] => Ok ([], endloop)
  | fr :: rest =>
      let? (lines, endloop') := fraction_lines i fr in
      let? (more, final) := chain_lines (S i) rest (Some endloop') in
      Ok (lines ++ more, final)
  end.

(** Lines 121-123. *)
Definition closing_lines (endloop : option bool) : result (list string) :=
  match endloop with
  | None => Raise UnboundLocalError
  | Some true => Ok []
  | Some false =>
      Ok [(tab ++ "else:")%string;
          (tab ++ tab ++ "registers.clear()")%string]
  end.

(** Lines 85-128: the list [python_program]. *)
Definition python_program (max_steps : Z) : method t (list string) :=
  (trace <- read N ;;
   n0 <- lift (first_entry trace) ;;
   N_0_factors <- lift (f_int.factorize n0) ;;
   modify (fun self =>
             set_registers (overlay N_0_factors (registers self)) self) ;;;
   regs <- read registers ;;
   fs <- read f ;;
   chain <- lift (chain_lines 0 fs None) ;;
   closing <- lift (closing_lines (snd chain)) ;;
   mret (["# Starting conditions"%string; "registers = {}"%string]
         ++ register_lines regs
         ++ [(newline ++ "# Main Loop")%string;
             "counter = 0"%string;
             "while sum(registers.values()) > 0:"%string;
             (tab ++ "counter += 1")%string]
         ++ fst chain
         ++ closing
         ++ [(tab ++ "print(' * '.join([str(factor) + '^' + str(registers[factor]) for factor in registers.keys()]))")%string;
             (tab ++ "if counter > " ++ str max_steps ++ ":")%string;
             (tab ++ tab ++ "break")%string]))%method.

(** Lines 80-129. *)
Definition python_equivalent (max_steps : Z) : method t string :=
  (lines <- python_program max_steps ;; mret (join newline lines))%method.

(** Lines 132-145.  Diagnostic output is not kept, but what is computed
    for it is: with [verbose > 0] the new state is factorized for
    display before it is appended. *)
Fixpoint run_step_from (verbose : Z) (i : nat) (fs : list (Z * Z))
  : method t unit :=
  match fs with
  | [] => modify (append_N 0)
  | (numerator, denominator) :: rest =>
      (trace <- read N ;;
       cur <- lift (last_entry trace) ;;
       r <- lift (py_mod (numerator * cur) denominator) ;;
       if r =? 0 then
         next_N <- lift (py_floordiv (numerator * cur) denominator) ;;
         lift (if verbose >? 0 then f_int.factorize next_N
               else Ok Dict.empty) ;;;
         modify (append_N next_N) ;;;
         modify (append_transition i)
       else run_step_from verbose (S i) rest)%method
  end.

Definition run_step (verbose : Z) : method t unit :=
  (fs <- read f ;; run_step_from verbose 0 fs)%method.

(** Lines 149-150: [if N_0: self.N = [N_0]]; [None] and [0] are falsy. *)
Definition run_reset (N_0 : option Z) : method t unit :=
  match N_0 with
  | Some n0 => if n0 =? 0 then mret tt else modify (set_N [n0])
  | None => mret tt
  end.

(** Lines 151-154: the [while] loop of [run]. *)
Fixpoint run_loop (fuel : nat) (verbose max_steps : Z) : method t unit :=
  (trace <- read N ;;
   cur <- lift (last_entry trace) ;;
   if cur =? 0 then mret tt
   else match fuel with
        | O => lift OutOfFuel
        | S fuel' =>
            run_step verbose ;;;
            trace' <- read N ;;
            (if Z.of_nat (List.length trace') + 1 >? max_steps
             then modify (append_N 0) else mret tt) ;;;
            run_loop fuel' verbose max_steps
        end)%method.

(** Fuel for [run_loop]: every round makes the trace longer, and a round
    that reaches the budget ends the loop. *)
Definition run_fuel (max_steps : Z) (trace : list Z) : nat :=
  S (Z.to_nat (max_steps - Z.of_nat (List.length trace))).

(** Lines 147-154. *)
Definition run (N_0 : option Z) (verbose max_steps : Z) : method t unit :=
  (run_reset N_0 ;;;
   trace <- read N ;;
   run_loop (run_fuel max_steps trace) verbose max_steps)%method.

End FractionGame.

(** * Vocabulary of the specification *)

Import FractionGame.

(** A program is valid when every denominator is positive. *)
Definition valid_program (fs : list (Z * Z)) : Prop :=
  Forall (fun fr => 0 < snd fr) fs.

(** Diagnostics at [verbose > 0] display the fraction, the state and the
    factors of the new state (lines 134 and 140).  They are sure to
    succeed when all of these are small integers that are not negative:
    here, when the state, the components of the fractions and the products
    of numerator and state are below 2^52, where the floating-point root
    of the factorizer is exact. *)
Definition displayable (verbose cur : Z) (fs : list (Z * Z)) : Prop :=
  0 < verbose ->
  0 <= cur < 2 ^ 52
  /\ Forall (fun fr => 0 <= fst fr < 2 ^ 52 /\ snd fr < 2 ^ 52
                       /\ fst fr * cur < 2 ^ 52) fs.

(** The fraction [fr] applies to the state [cur]. *)
Definition applies (cur : Z) (fr : Z * Z) : Prop :=
  (fst fr * cur) mod snd fr = 0.

(** The step of the fraction game, in the words of the specification: the
    first fraction, in program order, whose product with the state is an
    integer gives the next state; the next state is 0 when there is
    none. *)
Fixpoint next_state (fs : list (Z * Z)) (cur : Z) : Z :=
  match fs with
  | [] => 0
  | (n, d) :: rest =>
      if (n * cur) mod d =? 0 then n * cur / d else next_state rest cur
  end.

(** The states that successive steps append from the state [cur]: each
    step is taken from a state other than 0. *)
Inductive steps_from (fs : list (Z * Z)) : Z -> list Z -> Prop :=
| steps_nil (cur : Z) : steps_from fs cur []
| steps_cons (cur : Z) (rest : list Z) :
    cur <> 0 ->
    steps_from fs (next_state fs cur) rest ->
    steps_from fs cur (next_state fs cur :: rest).

(** The object [self] with the older transitions [ts] in front of its
    own. *)
Definition with_history (ts : list nat) (self : t) : t :=
  set_transitions (ts ++ transitions self) self.

(** The positional argument that stands for the fraction [fr]. *)
Definition as_argument (fr : Z * Z) : value :=
  VTuple [VInt (fst fr); VInt (snd fr)].

Definition is_int (v : value) : Prop := exists z, v = VInt z.

(** What the checks of the constructor ask of an argument. *)
Definition is_int_pair (frac : value) : Prop :=
  exists n d, frac = VTuple [VInt n; VInt d].


(** What the loops of [factorize] keep true: the factors found so far are
    primes below [top] with positive multiplicity and distinct keys, they
    multiply with the rest [a] to [n], and [a] has no divisor in
    [2, lo). *)
Record sieved (n top lo : Z) (factors : Dict.t) (a : Z) : Prop := {
  sieved_pos : 1 <= a;
  sieved_product : f_int.product factors * a = n;
  sieved_factors :
    Forall (fun kv => Z.prime (fst kv) /\ fst kv < top /\ 1 <= snd kv)
           factors;
  sieved_nodup : NoDup (Dict.keys factors);
  sieved_rest : forall j, 2 <= j < lo -> ~ (j | a)
}.

Arguments sieved_pos {n top lo factors a}.
Arguments sieved_product {n top lo factors a}.
Arguments sieved_factors {n top lo factors a}.
Arguments sieved_nodup {n top lo factors a}.
Arguments sieved_rest {n top lo factors a}.

(** ** A necessary condition for the emitted loop body to parse *)

Inductive clause : Type := IfClause | ElifClause | ElseClause | Statement.

(** The kind of a line at the indentation of the loop body. *)
Definition clause_of (line : string) : clause :=
  if prefix (tab ++ "if ") line then IfClause
  else if prefix (tab ++ "elif ") line then ElifClause
  else if prefix (tab ++ "else:") line then ElseClause
  else Statement.

(** The grammar of the host language for a conditional: [elif] and [else]
    clauses only continue a conditional that is still open, an [else]
    clause closes it, and every clause has at least one line in its
    block.  [open] says whether a conditional can be continued, [block]
    whether the block of the last clause is still empty. *)
Fixpoint conditional_ok (open block : bool) (lines : list string) : bool :=
  match lines with
  | [] => negb block
  | line :: rest =>
      if prefix (tab ++ tab) line then conditional_ok open false rest
      else if block then false
      else match clause_of line with
           | IfClause => conditional_ok true true rest
           | ElifClause => open && conditional_ok true true rest
           | ElseClause => open && conditional_ok false true rest
           | Statement => conditional_ok false false rest
           end
  end.

(** The lines of the loop body: those indented by a tab. *)
Definition loop_body (lines : list string) : list string :=
  filter (prefix tab) lines.

(** ** Sample objects *)

(** A game in the middle of a run, for the examples. *)
Definition sample_game : t :=
  mk [(3, 2); (1, 2); (5, 7)] [8; 4; 7] [1%nat; 1%nat] [(3, 0); (2, 0); (5, 0); (7, 0)].

(** The classic trace of the program [(1, 2)] from 8. *)
Definition halving_game : t := mk [(1, 2)] [8] [] [(2, 0)].

(** The halving game after its run. *)
Definition halted_game : t :=
  mk [(1, 2)] [8; 4; 2; 1; 0] [0%nat; 0%nat; 0%nat] [(2, 0)].

(** A program whose second fraction has denominator 0. *)
Definition zero_game : t := mk [(3, 4); (5, 0)] [6] [] [(3, 0); (2, 0); (5, 0)].

(** The prime-generating program of Conway, at its start. *)
Definition primegame : t :=
  mk [(17, 91); (78, 85); (19, 51); (23, 38); (29, 33); (77, 29); (95, 23);
      (77, 19); (1, 17); (11, 13); (13, 11); (15, 14); (15, 2); (55, 1)]
     [2] [] [].

(** A program whose fraction of denominator 1 is in the middle. *)
Definition else_in_the_middle : t :=
  mk [(3, 2); (5, 1); (7, 3)] [2] [] [(3, 0); (2, 0); (5, 0); (7, 0)].

(** A program that ends with the fraction [1/1]. *)
Definition one_over_one_last : t :=
  mk [(3, 4); (1, 1)] [10] [] [(3, 0); (2, 0)].


(** * Display *)

(** ** Objects of class [f_int] *)

Module f_int_object.

Record t : Type := mk { n : Z; factors : Dict.t }.

(** Lines 3-5. *)
Definition __init__ (a : Z) : result t :=
  let? found := f_int.factorize a in Ok (mk a found).

(** Lines 28-30. *)
Definition __repr__ (self : t) : string :=
  join " * "
       (map (fun kv => (str (fst kv) ++ "^" ++ str (snd kv))%string)
            (factors self)).

End f_int_object.

(** ** The history of a game *)

Module FractionGame_display.

(** [l[i]] for a list and an index that is not negative. *)
Definition item {A : Type} (l : list A) (i : nat) : result A :=
  match nth_error l i with
  | Some x => Ok x
  | None => Raise IndexError
  end.

(** Lines 58-62: the entry of the state [N_i], at position [i] of the
    trace. *)
Definition history_entry (self : FractionGame.t) (i : nat) (N_i : Z)
  : result string :=
  if (i <? List.length (FractionGame.transitions self))%nat then
    let? transition := item (FractionGame.transitions self) i in
    let? fraction := item (FractionGame.f self) transition in
    let? shown := f_int_object.__init__ N_i in
    let? letter := chr (Z.of_nat transition + 65) in
    Ok (f_int_object.__repr__ shown ++ newline
        ++ "*" ++ str (fst fraction) ++ "/" ++ str (snd fraction)
        ++ " (" ++ letter ++ ")")%string
  else
    let? shown := f_int_object.__init__ N_i in
    Ok (f_int_object.__repr__ shown).

(** Lines 56-62: the loop over the trace. *)
Fixpoint history_from (self : FractionGame.t) (i : nat) (trace : list Z)
  : result (list string) :=
  match trace with
  | [] => Ok []
  | N_i :: rest =>
      let? entry := history_entry self i N_i in
      let? entries := history_from self (S i) rest in
      Ok (entry :: entries)
  end.

(** Lines 55-63. *)
Definition __repr__ (self : FractionGame.t) : result string :=
  let? history := history_from self 0 (FractionGame.N self) in
  Ok (join newline history).

End FractionGame_display.

(** * Invariants of an engine *)

(** Every recorded transition is the index of a fraction of the
    program. *)
Definition transitions_in_range (self : FractionGame.t) : Prop :=
  Forall (fun i => (i < List.length (FractionGame.f self))%nat)
         (FractionGame.transitions self).

(** The transition at position [k] is [i]: fraction [i] is the first one
    that applies to entry [k] of the trace, and entry [k + 1] is its
    result. *)
Definition link (fs : list (Z * Z)) (trace : list Z) (k i : nat) : Prop :=
  exists n d x,
    nth_error fs i = Some (n, d)
    /\ nth_error trace k = Some x
    /\ d <> 0
    /\ (n * x) mod d = 0
    /\ nth_error trace (S k) = Some (n * x / d)
    /\ forall j n' d', (j < i)%nat -> nth_error fs j = Some (n', d') ->
                       (n' * x) mod d' <> 0.

(** The transitions tell how the trace was made. *)
Definition faithful (self : FractionGame.t) : Prop :=
  forall k i,
    nth_error (FractionGame.transitions self) k = Some i ->
    link (FractionGame.f self) (FractionGame.N self) k i.

(** There is one transition for each entry of the trace but the first. *)
Definition aligned (self : FractionGame.t) : Prop :=
  List.length (FractionGame.N self)
  = S (List.length (FractionGame.transitions self)).

(** A faithful engine that can go on, or has halted. *)
Definition ready (self : FractionGame.t) : Prop :=
  faithful self
  /\ (aligned self
      \/ FractionGame.last_entry (FractionGame.N self) = Ok 0).

(** * Canonical factor dictionaries *)

(** The keys come in strictly ascending order. *)
Definition ascending (d : Dict.t) : Prop :=
  StronglySorted Z.lt (Dict.keys d).

(** Ascending prime keys with positive exponents: the one way to write a
    positive integer. *)
Definition canonical (d : Dict.t) : Prop :=
  ascending d /\ Forall (fun kv => Z.prime (fst kv) /\ 1 <= snd kv) d.

(** * Primality by trial division on machine integers *)

(** A check that decides, by computation on 63-bit machine integers, that
    an integer has no divisor in a range.  It is used to show that
    [2^53 + 5] is a prime, for the inputs on which the rounded root of
    line 13 falls below the integer square root. *)
Module primality.



End primality.

(** * Properties *)

Example factorize_360 :
  f_int.factorize 360 = Ok [(2, 3); (3, 2); (5, 1)].
Proof. reflexivity. Qed.

Example factorize_97 : f_int.factorize 97 = Ok [(97, 1)].
Proof. reflexivity. Qed.

(** ** Outcomes *)


(** ** Dictionaries *)

Section DictFacts.

Variable P : Z * Z -> Prop.

Lemma Forall_set (k v : Z) (d : Dict.t) :
  Forall P d -> P (k, v) -> Forall P (Dict.set k v d).
Proof.
  intros Hd Hkv. induction d as [|[k' v'] d IH]; simpl.
  - constructor; [exact Hkv | constructor].
  - inversion Hd as [|? ? Hhd Htl]; subst.
    destruct (k' =? k) eqn:E.
    + apply Z.eqb_eq in E; subst k'. constructor; assumption.
    + constructor; [assumption | apply IH; assumption].
Qed.

Lemma get_Some_In (k v : Z) (d : Dict.t) :
  Dict.get k d = Some v -> In (k, v) d.
Proof.
  induction d as [|[k' v'] d IH]; simpl; [discriminate|].
  destruct (k' =? k) eqn:E.
  - apply Z.eqb_eq in E; subst k'. intros [= ->]. left; reflexivity.
  - intros H; right; apply IH; exact H.
Qed.

Lemma Forall_count_factor (i : Z) (d : Dict.t) :
  Forall P d -> P (i, 1) -> (forall c, P (i, c) -> P (i, c + 1)) ->
  Forall P (f_int.count_factor i d).
Proof.
  intros Hd H1 Hstep. unfold f_int.count_factor.
  destruct (Dict.get i d) as [c|] eqn:E.
  - apply Forall_set; [exact Hd|]. apply Hstep.
    apply get_Some_In in E. rewrite Forall_forall in Hd. apply Hd, E.
  - apply Forall_set; assumption.
Qed.

End DictFacts.

Lemma keys_set (k v : Z) (d : Dict.t) (x : Z) :
  In x (Dict.keys (Dict.set k v d)) <-> x = k \/ In x (Dict.keys d).
Proof.
  unfold Dict.keys. induction d as [|[k' v'] d IH]; simpl.
  - split; [intros [H|[]]; left; symmetry; exact H
           | intros [H|[]]; left; symmetry; exact H].
  - destruct (k' =? k) eqn:E; simpl.
    + apply Z.eqb_eq in E; subst k'. split.
      * intros [H|H]; [left; symmetry; exact H | right; right; exact H].
      * intros [H|[H|H]]; [left; symmetry; exact H | left; exact H
                          | right; exact H].
    + rewrite IH. split.
      * intros [H|[H|H]]; [right; left; exact H | left; exact H
                          | right; right; exact H].
      * intros [H|[H|H]]; [right; left; exact H | left; exact H
                          | right; right; exact H].
Qed.

Lemma NoDup_keys_set (k v : Z) (d : Dict.t) :
  NoDup (Dict.keys d) -> NoDup (Dict.keys (Dict.set k v d)).
Proof.
  induction d as [|[k' v'] d IH]; simpl; intros Hd.
  - constructor; [intros [] | constructor].
  - inversion Hd as [|? ? Hnot Htl]; subst.
    destruct (k' =? k) eqn:E; simpl.
    + constructor; assumption.
    + constructor; [|apply IH; exact Htl].
      intros Hin. apply keys_set in Hin. destruct Hin as [->|Hin].
      * rewrite Z.eqb_refl in E; discriminate.
      * apply Hnot, Hin.
Qed.

Lemma NoDup_keys_count_factor (i : Z) (d : Dict.t) :
  NoDup (Dict.keys d) -> NoDup (Dict.keys (f_int.count_factor i d)).
Proof.
  intros Hd. unfold f_int.count_factor.
  destruct (Dict.get i d); apply NoDup_keys_set; exact Hd.
Qed.

Lemma get_None_set_product (i v : Z) (d : Dict.t) :
  Dict.get i d = None ->
  f_int.product (Dict.set i v d) = i ^ v * f_int.product d.
Proof.
  induction d as [|[k' v'] d IH]; simpl; intros Hget.
  - lia.
  - destruct (k' =? i) eqn:E; [discriminate|]. simpl.
    rewrite IH by exact Hget. ring.
Qed.

Lemma get_Some_set_product (i c : Z) (d : Dict.t) :
  Dict.get i d = Some c -> 0 <= c ->
  f_int.product (Dict.set i (c + 1) d) = i * f_int.product d.
Proof.
  induction d as [|[k' v'] d IH]; simpl; intros Hget Hc; [discriminate|].
  destruct (k' =? i) eqn:E; simpl.
  - apply Z.eqb_eq in E; subst k'. injection Hget as ->.
    rewrite Z.pow_add_r by lia. rewrite Z.pow_1_r. ring.
  - rewrite IH by assumption. ring.
Qed.

Lemma product_count_factor (i : Z) (d : Dict.t) :
  Forall (fun kv => 0 <= snd kv) d ->
  f_int.product (f_int.count_factor i d) = i * f_int.product d.
Proof.
  intros Hd. unfold f_int.count_factor.
  destruct (Dict.get i d) as [c|] eqn:E.
  - apply get_Some_set_product; [exact E|].
    apply get_Some_In in E. rewrite Forall_forall in Hd.
    apply (Hd (i, c)), E.
  - rewrite get_None_set_product by exact E. rewrite Z.pow_1_r. reflexivity.
Qed.

(** ** The factorizer *)

Lemma range_nil (lo hi : Z) : hi <= lo -> f_int.range lo hi = [].
Proof.
  intros H. unfold f_int.range.
  replace (Z.to_nat (hi - lo)) with 0%nat by lia. reflexivity.
Qed.

Lemma range_cons (lo hi : Z) :
  lo < hi -> f_int.range lo hi = lo :: f_int.range (lo + 1) hi.
Proof.
  intros H. unfold f_int.range.
  replace (Z.to_nat (hi - lo)) with (S (Z.to_nat (hi - (lo + 1)))) by lia.
  simpl. f_equal; [lia|].
  rewrite <- seq_shift, map_map. apply map_ext. intros k. lia.
Qed.

Lemma sieved_nonneg n top lo factors a :
  sieved n top lo factors a -> Forall (fun kv => 0 <= snd kv) factors.
Proof.
  intros H. eapply Forall_impl; [|exact (sieved_factors H)].
  simpl. intros kv (_ & _ & Hv). lia.
Qed.

Lemma sieved_top n top top' lo factors a :
  top <= top' -> sieved n top lo factors a -> sieved n top' lo factors a.
Proof.
  intros Hle H. constructor.
  - exact (sieved_pos H).
  - exact (sieved_product H).
  - eapply Forall_impl; [|exact (sieved_factors H)].
    simpl. intros kv (? & ? & ?). split; [assumption | lia].
  - exact (sieved_nodup H).
  - exact (sieved_rest H).
Qed.

(** The [while] loop at divisor [i]: on enough fuel it ends, leaving a rest
    that [i] no longer divides. *)
Lemma divide_out_spec (fuel : nat) :
  forall n i factors a,
    2 <= i -> a < 2 ^ Z.of_nat fuel ->
    sieved n (i + 1) i factors a ->
    exists factors' a',
      f_int.divide_out fuel i factors a = Ok (factors', a')
      /\ sieved n (i + 1) (i + 1) factors' a'.
Proof.
  induction fuel as [|fuel IH]; intros n i factors a Hi Hfuel Hs.
  - pose proof (sieved_pos Hs) as Hpos. simpl in Hfuel. lia.
  - pose proof (sieved_pos Hs) as Hpos.
    cbn [f_int.divide_out]. unfold py_mod, py_floordiv.
    replace (i =? 0) with false by (symmetry; apply Z.eqb_neq; lia).
    cbn [rbind].
    destruct (a mod i =? 0) eqn:Hmod; cbn [negb].
    + apply Z.eqb_eq in Hmod.
      assert (Hdiv : (i | a)) by (apply Z.mod_divide; [lia | exact Hmod]).
      assert (Ha : a = i * (a / i)) by (apply Z.div_exact; [lia | exact Hmod]).
      assert (Hq : 1 <= a / i) by nia.
      assert (Hprime : Z.prime i).
      { split; [lia|]. intros m Hm Hmi.
        apply (sieved_rest Hs m); [lia|].
        eapply Z.divide_trans; [exact Hmi | exact Hdiv]. }
      destruct fuel as [|fuel'].
      * simpl in Hfuel. nia.
      * apply (IH n); [exact Hi | | ].
        -- rewrite Nat2Z.inj_succ, Z.pow_succ_r in Hfuel by lia. nia.
        -- constructor.
           ++ exact Hq.
           ++ rewrite product_count_factor by (eapply sieved_nonneg; exact Hs).
              rewrite <- (sieved_product Hs).
              transitivity (f_int.product factors * (i * (a / i)));
                [ring | rewrite <- Ha; reflexivity].
           ++ apply Forall_count_factor.
              ** exact (sieved_factors Hs).
              ** simpl. split; [exact Hprime | lia].
              ** simpl. intros c (? & ? & ?). split; [assumption | lia].
           ++ apply NoDup_keys_count_factor, (sieved_nodup Hs).
           ++ intros j Hj Hja. apply (sieved_rest Hs j Hj).
              rewrite Ha. apply Z.divide_mul_r, Hja.
    + apply Z.eqb_neq in Hmod. exists factors, a. split; [reflexivity|].
      constructor.
      * exact Hpos.
      * exact (sieved_product Hs).
      * exact (sieved_factors Hs).
      * exact (sieved_nodup Hs).
      * intros j Hj Hja. destruct (Z.eq_dec j i) as [->|Hne].
        -- apply Hmod, Z.mod_divide; [lia | exact Hja].
        -- apply (sieved_rest Hs j); [lia | exact Hja].
Qed.

Lemma divide_fuel_enough (a : Z) :
  1 <= a -> a < 2 ^ Z.of_nat (f_int.divide_fuel a).
Proof.
  intros Ha. unfold f_int.divide_fuel.
  pose proof (Z.log2_nonneg a) as Hlog.
  rewrite Nat2Z.inj_succ, Z2Nat.id by exact Hlog.
  apply Z.log2_spec. lia.
Qed.

(** The [for] loop over [range(lo, hi)]. *)
Lemma trial_division_spec (k : nat) :
  forall n lo hi factors a,
    Z.to_nat (hi - lo) = k -> 2 <= lo ->
    sieved n lo lo factors a ->
    exists factors' a',
      f_int.trial_division (f_int.range lo hi) factors a = Ok (factors', a')
      /\ sieved n (Z.max lo hi) (Z.max lo hi) factors' a'.
Proof.
  induction k as [|k IH]; intros n lo hi factors a Hk Hlo Hs.
  - rewrite range_nil by lia. exists factors, a. split; [reflexivity|].
    replace (Z.max lo hi) with lo by lia. exact Hs.
  - rewrite range_cons by lia. cbn [f_int.trial_division].
    destruct (divide_out_spec (f_int.divide_fuel a) n lo factors a)
      as (factors1 & a1 & Hrun & Hs1).
    + exact Hlo.
    + apply divide_fuel_enough, (sieved_pos Hs).
    + apply (sieved_top n lo); [lia | exact Hs].
    + rewrite Hrun. cbn [rbind].
      destruct (IH n (lo + 1) hi factors1 a1) as (factors' & a' & Hrest & Hs');
        [lia | lia | exact Hs1 |].
      exists factors', a'. split; [exact Hrest|].
      replace (Z.max lo hi) with (Z.max (lo + 1) hi) by lia. exact Hs'.
Qed.

(** A rest above 1 without a divisor up to the square root of [n] is a
    prime. *)
Lemma rest_is_prime (n s a : Z) :
  0 <= s -> n < (s + 1) * (s + 1) -> 1 < a <= n ->
  (forall j, 2 <= j < s + 1 -> ~ (j | a)) ->
  Z.prime a.
Proof.
  intros Hs Hn Ha Hrest. split; [lia|].
  intros m Hm [q Hq].
  assert (Hqpos : 1 < q < a) by nia.
  destruct (Z_lt_le_dec m (s + 1)) as [Hsmall|Hbig].
  - apply (Hrest m); [lia|]. exists q. exact Hq.
  - apply (Hrest q); [nia|]. exists m. lia.
Qed.

(** *** The floating-point root *)

Lemma round53_small (n : Z) : 0 <= n < 2 ^ 53 -> binary64.round53 n = n.
Proof.
  intros Hn. unfold binary64.round53.
  assert (H : Z.log2 n + 1 - 53 <= 0).
  { destruct (Z.eq_dec n 0) as [->|Hne]; [cbn; lia|].
    assert (Z.log2 n < 53) by (apply Z.log2_lt_pow2; lia). lia. }
  apply Z.leb_le in H. rewrite H. reflexivity.
Qed.

Lemma round53_pos (n : Z) : 1 <= n -> 1 <= binary64.round53 n.
Proof.
  intros Hn. unfold binary64.round53.
  destruct (Z.log2 n + 1 - 53 <=? 0) eqn:Hshift; [exact Hn|].
  apply Z.leb_gt in Hshift.
  set (shift := Z.log2 n + 1 - 53) in *.
  assert (Hpow : 0 < 2 ^ shift) by (apply Z.pow_pos_nonneg; lia).
  assert (Hm : 2 ^ 52 <= n / 2 ^ shift).
  { apply Z.div_le_lower_bound; [exact Hpow|].
    rewrite <- Z.pow_add_r by lia.
    replace (shift + 52) with (Z.log2 n) by (unfold shift; lia).
    apply Z.log2_spec. lia. }
  assert (H52 : 0 < 2 ^ 52) by (apply Z.pow_pos_nonneg; lia).
  destruct (n mod 2 ^ shift ?= 2 ^ (shift - 1));
    [destruct (Z.even (n / 2 ^ shift))| |]; nia.
Qed.

Lemma of_int_small (a : Z) :
  - 2 ^ 53 < a < 2 ^ 53 -> binary64.of_int a = Ok a.
Proof.
  intros Ha. unfold binary64.of_int.
  rewrite round53_small by lia.
  assert (H53 : 2 ^ 53 <= 2 ^ 1024) by (apply Z.pow_le_mono_r; lia).
  replace (2 ^ 1024 <=? Z.abs a) with false
    by (symmetry; apply Z.leb_gt; lia).
  f_equal. rewrite Z.mul_comm. apply Z.abs_sgn.
Qed.

(** The rounded root of an integer below 2^52 truncates to the integer
    square root: the rounding cannot reach the next integer. *)
Lemma sqrt_truncated (a : Z) :
  1 <= a < 2 ^ 52 ->
  binary64.to_int (binary64.Real (binary64.sqrt a)) = Ok (Z.sqrt a).
Proof.
  intros Ha. unfold binary64.sqrt.
  replace (a <=? 0) with false by (symmetry; apply Z.leb_gt; lia).
  pose proof (Z.sqrt_spec a ltac:(lia)) as Hs. unfold Z.succ in Hs.
  set (s := Z.sqrt a) in *.
  assert (Hs1 : 1 <= s).
  { destruct (Z_lt_le_dec s 1); [|assumption]. nia. }
  assert (Hs26 : s < 2 ^ 26).
  { destruct (Z_lt_le_dec s (2 ^ 26)); [assumption|].
    assert (2 ^ 26 * 2 ^ 26 <= s * s) by nia.
    replace (2 ^ 26 * 2 ^ 26) with (2 ^ 52) in * by reflexivity. lia. }
  assert (HL : 0 <= Z.log2 s < 26).
  { split; [apply Z.log2_nonneg|]. apply Z.log2_lt_pow2; lia. }
  set (k := 52 - Z.log2 s).
  replace (Z.log2 s - 52) with (- k) by (unfold k; lia).
  assert (Hk : 27 <= k) by (unfold k; lia).
  rewrite Z.opp_involutive.
  replace (Z.max 0 k) with k by lia.
  replace (Z.max 0 (- k)) with 0 by lia.
  change (4 ^ 0) with 1. rewrite Z.div_1_r, Z.mul_1_r.
  set (P := 2 ^ k).
  assert (H4 : 4 ^ k = P * P).
  { unfold P. change 4 with (2 ^ 2). rewrite <- Z.pow_mul_r by lia.
    rewrite <- Z.pow_add_r by lia. f_equal. lia. }
  rewrite H4.
  assert (HP : 2 ^ 27 <= P) by (unfold P; apply Z.pow_le_mono_r; lia).
  assert (HP0 : 0 < P) by lia.
  pose proof (Z.sqrt_spec (a * (P * P)) ltac:(nia)) as Hm.
  unfold Z.succ in Hm.
  set (m := Z.sqrt (a * (P * P))) in *.
  assert (Hm0 : 0 <= m) by (apply Z.sqrt_nonneg).
  assert (Hlo : s * P <= m).
  { destruct (Z_lt_le_dec m (s * P)); [|assumption]. exfalso.
    assert ((m + 1) * (m + 1) <= (s * P) * (s * P)) by nia. nia. }
  assert (Hhi : m < (s + 1) * P).
  { destruct (Z_lt_le_dec m ((s + 1) * P)); [assumption|]. exfalso.
    assert (((s + 1) * P) * ((s + 1) * P) <= m * m) by nia. nia. }
  cbn [binary64.to_int binary64.exponent binary64.mantissa].
  replace (0 <=? - k) with false by (symmetry; apply Z.leb_gt; lia).
  rewrite Z.opp_involutive. fold P.
  f_equal.
  assert (Hround :
            forall m',
              (m' = m
               \/ (m' = m + 1 /\ (2 * m + 1) ^ 2 <= 4 * (a * (P * P)))) ->
              Z.quot m' P = s).
  { intros m' Hm'. rewrite Z.quot_div_nonneg by lia.
    symmetry. apply Z.div_unique with (r := m' - s * P); [|lia].
    left. destruct Hm' as [->|[-> Hup]]; [lia|].
    split; [lia|].
    destruct (Z_lt_le_dec (m + 1) ((s + 1) * P)); [lia|]. exfalso.
    assert (m = (s + 1) * P - 1) by lia.
    assert (a <= (s + 1) * (s + 1) - 1) by lia.
    assert (a * (P * P) <= ((s + 1) * P) * ((s + 1) * P) - P * P) by nia.
    assert (s + 1 < P) by lia.
    nia. }
  destruct (4 * (a * (P * P)) ?= (2 * m + 1) ^ 2) eqn:Hc.
  - apply Z.compare_eq in Hc.
    destruct (Z.even m); apply Hround;
      [left; reflexivity | right; split; [reflexivity | lia]].
  - apply Hround. left. reflexivity.
  - apply Z.compare_gt_iff in Hc. apply Hround.
    right. split; [reflexivity | lia].
Qed.

(** Below 2^52 the bound of the scan is the integer square root. *)
Lemma int_sqrt_exact (a : Z) :
  0 <= a < 2 ^ 52 -> f_int.int_sqrt a = Ok (Z.sqrt a).
Proof.
  intros Ha. unfold f_int.int_sqrt.
  assert (H : 2 ^ 52 < 2 ^ 53) by (apply Z.pow_lt_mono_r; lia).
  rewrite of_int_small by lia. cbn [rbind].
  destruct (Z.eq_dec a 0) as [->|Hne]; [reflexivity|].
  unfold binary64.pow_half.
  replace (a <? 0) with false by (symmetry; apply Z.ltb_ge; lia).
  apply sqrt_truncated. lia.
Qed.

Lemma int_sqrt_negative (a : Z) :
  - 2 ^ 52 < a < 0 -> f_int.int_sqrt a = Raise TypeError.
Proof.
  intros Ha. unfold f_int.int_sqrt.
  assert (H : 2 ^ 52 < 2 ^ 53) by (apply Z.pow_lt_mono_r; lia).
  rewrite of_int_small by lia. cbn [rbind].
  unfold binary64.pow_half.
  replace (a <? 0) with true by (symmetry; apply Z.ltb_lt; lia).
  reflexivity.
Qed.

(** The three outcomes of [int(a ** 0.5)]. *)
Lemma int_sqrt_outcome (a : Z) :
  (0 <= a /\ exists b, f_int.int_sqrt a = Ok b)
  \/ (a < 0 /\ f_int.int_sqrt a = Raise TypeError)
  \/ f_int.int_sqrt a = Raise OverflowError.
Proof.
  unfold f_int.int_sqrt, binary64.of_int.
  destruct (2 ^ 1024 <=? binary64.round53 (Z.abs a));
    [right; right; reflexivity|].
  cbn [rbind]. unfold binary64.pow_half.
  destruct (Z_lt_le_dec a 0) as [Hneg|Hnn].
  - right. left. split; [exact Hneg|].
    pose proof (round53_pos (Z.abs a) ltac:(lia)) as Hpos.
    replace (Z.sgn a) with (-1) by (symmetry; apply Z.sgn_neg; exact Hneg).
    replace (-1 * binary64.round53 (Z.abs a) <? 0) with true
      by (symmetry; apply Z.ltb_lt; lia).
    reflexivity.
  - left. split; [exact Hnn|].
    assert (Hpos : 0 <= binary64.round53 (Z.abs a)).
    { destruct (Z.eq_dec a 0) as [->|Hne]; [cbn; lia|].
      pose proof (round53_pos (Z.abs a) ltac:(lia)). lia. }
    assert (Hsgn : 0 <= Z.sgn a) by (apply Z.sgn_nonneg; exact Hnn).
    replace (Z.sgn a * binary64.round53 (Z.abs a) <? 0) with false
      by (symmetry; apply Z.ltb_ge; nia).
    eexists. reflexivity.
Qed.

(** *** What [factorize] returns *)

(** On a positive integer, whatever the bound [b] of the scan: the loops
    end, the product of the mapping is [n], the keys are distinct and the
    exponents positive.  The keys are primes when the bound is not below
    the integer square root: the rest above 1 that the scan leaves over
    is then a prime. *)
Lemma factorize_with_bound (n b : Z) :
  1 <= n ->
  f_int.int_sqrt n = Ok b ->
  exists d,
    f_int.factorize n = Ok d
    /\ f_int.product d = n
    /\ Forall (fun kv => 1 <= snd kv) d
    /\ NoDup (Dict.keys d)
    /\ (Z.sqrt n <= b ->
        Forall (fun kv => Z.prime (fst kv) /\ 1 <= snd kv) d).
Proof.
  intros Hn Hb. unfold f_int.factorize. rewrite Hb. cbn [rbind].
  destruct (trial_division_spec (Z.to_nat (b + 1 - 2)) n 2
              (b + 1) Dict.empty n)
    as (factors & a & Hrun & Hs); [reflexivity | lia | |].
  { constructor.
    - lia.
    - change (1 * n = n). lia.
    - constructor.
    - constructor.
    - intros j Hj. lia. }
  rewrite Hrun. cbn [rbind].
  assert (Hle : a <= n).
  { pose proof (sieved_product Hs) as Hp. pose proof (sieved_pos Hs) as Ha.
    assert (1 <= f_int.product factors) by nia. nia. }
  assert (Hfac :
            Forall (fun kv => Z.prime (fst kv) /\ 1 <= snd kv) factors).
  { eapply Forall_impl; [|exact (sieved_factors Hs)].
    simpl. intros kv (? & _ & ?). split; assumption. }
  assert (Hexp : Forall (fun kv => 1 <= snd kv) factors).
  { eapply Forall_impl; [|exact Hfac]. simpl. intros kv [_ H]. exact H. }
  destruct (a >? 1) eqn:Hgt.
  - apply Z.gtb_lt in Hgt. eexists. split; [reflexivity|].
    split; [|split; [|split]].
    + rewrite product_count_factor by (eapply sieved_nonneg; exact Hs).
      rewrite <- (sieved_product Hs). ring.
    + apply Forall_count_factor; simpl; [exact Hexp | lia | intros; lia].
    + apply NoDup_keys_count_factor, (sieved_nodup Hs).
    + intros Hbound. apply Forall_count_factor; simpl.
      * exact Hfac.
      * split; [|lia].
        pose proof (Z.sqrt_spec n ltac:(lia)) as Hsqrt.
        pose proof (Z.sqrt_nonneg n) as Hs0. unfold Z.succ in Hsqrt.
        apply (rest_is_prime n b).
        -- lia.
        -- nia.
        -- lia.
        -- intros j Hj. apply (sieved_rest Hs). lia.
      * intros c (? & ?). split; [assumption | lia].
  - assert (a = 1).
    { pose proof (sieved_pos Hs).
      destruct (Z.gtb_spec a 1); [discriminate | lia]. }
    subst a. exists factors. split; [reflexivity|].
    split; [|split; [|split]].
    + rewrite <- (sieved_product Hs). ring.
    + exact Hexp.
    + exact (sieved_nodup Hs).
    + intros _. exact Hfac.
Qed.

(** [factorize] returns on the integers that are not negative only. *)
Lemma factorize_Ok_nonneg (n : Z) (d : Dict.t) :
  f_int.factorize n = Ok d -> 0 <= n.
Proof.
  unfold f_int.factorize.
  destruct (int_sqrt_outcome n) as [[Hn _] | [[_ ->] | ->]];
    [intros _; exact Hn | discriminate | discriminate].
Qed.

(** Whenever [factorize] returns: the keys are distinct, the exponents are
    positive, the product of the mapping is [n] from 1 on, and the
    mapping is empty for 0 and 1 only. *)
Lemma factorize_returns (n : Z) (d : Dict.t) :
  f_int.factorize n = Ok d ->
  NoDup (Dict.keys d)
  /\ Forall (fun kv => 1 <= snd kv) d
  /\ (1 <= n -> f_int.product d = n)
  /\ (d = Dict.empty <-> n <= 1).
Proof.
  intros Hrun. pose proof (factorize_Ok_nonneg n d Hrun) as Hn.
  destruct (Z.eq_dec n 0) as [->|Hne].
  - change (Ok Dict.empty = Ok d) in Hrun. injection Hrun as <-.
    split; [constructor|]. split; [constructor|].
    split; [lia|]. split; [lia | reflexivity].
  - destruct (int_sqrt_outcome n) as [[_ [b Hb]] | [[Hneg _] | Hover]];
      [|lia|unfold f_int.factorize in Hrun; rewrite Hover in Hrun;
            discriminate].
    destruct (factorize_with_bound n b ltac:(lia) Hb)
      as (d' & Hrun' & Hprod & Hexp & Hnd & _).
    rewrite Hrun in Hrun'. injection Hrun' as <-.
    split; [exact Hnd|]. split; [exact Hexp|].
    split; [intros _; exact Hprod|]. split.
    + intros Hd. rewrite Hd in Hprod. change (1 = n) in Hprod. lia.
    + intros H1. assert (Hone : n = 1) by lia.
      rewrite Hone in Hrun.
      assert (Hrun1 : f_int.factorize 1 = Ok Dict.empty) by reflexivity.
      rewrite Hrun1 in Hrun. injection Hrun as <-. reflexivity.
Qed.

(** On the negative integers above [-2^52] the power is complex and [int]
    raises. *)
Lemma factorize_negative (n : Z) :
  - 2 ^ 52 < n < 0 -> f_int.factorize n = Raise TypeError.
Proof.
  intros Hn. unfold f_int.factorize.
  rewrite int_sqrt_negative by exact Hn. reflexivity.
Qed.

(** On every integer of [0, 2^52) [factorize] returns the prime
    factorization: its loops end, nothing is raised, and the keys are
    primes. *)
Lemma factorize_total (n : Z) :
  0 <= n < 2 ^ 52 ->
  exists d,
    f_int.factorize n = Ok d
    /\ (1 <= n -> f_int.product d = n)
    /\ Forall (fun kv => Z.prime (fst kv) /\ 1 <= snd kv) d
    /\ NoDup (Dict.keys d)
    /\ (d = Dict.empty <-> n <= 1).
Proof.
  intros Hn.
  destruct (Z.eq_dec n 0) as [->|Hne].
  - exists Dict.empty. split; [reflexivity|]. split; [lia|].
    split; [constructor|]. split; [constructor|].
    split; [lia | reflexivity].
  - destruct (factorize_with_bound n (Z.sqrt n) ltac:(lia)
                (int_sqrt_exact n Hn))
      as (d & Hrun & Hprod & _ & Hnd & Hfac).
    destruct (factorize_returns n d Hrun) as (_ & _ & _ & Hempty).
    exists d. split; [exact Hrun|]. split; [intros _; exact Hprod|].
    split; [apply Hfac; lia|]. split; [exact Hnd | exact Hempty].
Qed.

(** [factorize] returns a mapping, or raises [TypeError] or
    [OverflowError]; nothing else, and its loops end. *)
Lemma factorize_outcome (n : Z) :
  (exists d, f_int.factorize n = Ok d)
  \/ (f_int.factorize n = Raise TypeError
      \/ f_int.factorize n = Raise OverflowError).
Proof.
  destruct (int_sqrt_outcome n) as [[Hn [b Hb]] | [[_ H] | H]].
  - left. destruct (Z.eq_dec n 0) as [->|Hne].
    + exists Dict.empty. reflexivity.
    + destruct (factorize_with_bound n b ltac:(lia) Hb) as (d & Hrun & _).
      exists d. exact Hrun.
  - right. left. unfold f_int.factorize. rewrite H. reflexivity.
  - right. right. unfold f_int.factorize. rewrite H. reflexivity.
Qed.


Lemma prime_divisor_is_key (d : Dict.t) (p : Z) :
  Forall (fun kv => Z.prime (fst kv) /\ 1 <= snd kv) d ->
  Z.prime p -> (p | f_int.product d) -> In p (Dict.keys d).
Proof.
  induction d as [|[q e] d IH]; simpl; intros Hd Hp Hdiv.
  - destruct Hp as [Hp _]. apply Z.divide_1_r in Hdiv. lia.
  - inversion Hd as [|? ? [Hq He] Htl]; subst. simpl in Hq, He.
    apply Z.divide_prime_mul in Hdiv; [|exact Hp].
    destruct Hdiv as [Hdiv|Hdiv].
    + left. symmetry. apply (Z.divide_prime_pp p q e); try assumption. lia.
    + right. apply IH; assumption.
Qed.

(** C2, as stated, fails at 0: [factorize(0)] returns the empty mapping,
    whose product is 1 and not 0. *)
Lemma factorize_zero_no_round_trip :
  ~ (exists d, f_int.factorize 0 = Ok d /\ f_int.product d = 0).
Proof.
  intros (d & Hrun & Hprod).
  assert (Hzero : f_int.factorize 0 = Ok Dict.empty) by reflexivity.
  rewrite Hzero in Hrun. injection Hrun as <-.
  discriminate Hprod.
Qed.

(** Past the range of binary64, the conversion of line 13 raises. *)
Example factorize_beyond_float :
  f_int.factorize (2 ^ 1024) = Raise OverflowError.
Proof. vm_compute. reflexivity. Qed.

(** C2 (amended): whenever [factorize] returns on a non-negative [n], the
    keys of the mapping are distinct, for [n >= 1] the product of
    [key ^ exponent] over the mapping is [n] (round trip), and for
    [n = 1] and for [n = 0] the mapping is empty; and it does return on
    every [n] below 2^52.  (From about 2^1024 on the conversion to
    [float] raises [OverflowError].) *)
Theorem factorize_round_trip (n : Z) :
  0 <= n ->
  (n < 2 ^ 52 -> exists d, f_int.factorize n = Ok d)
  /\ forall d,
      f_int.factorize n = Ok d ->
      NoDup (Dict.keys d)
      /\ (1 <= n -> f_int.product d = n)
      /\ (n <= 1 -> d = Dict.empty).
Proof.
  intros Hn. split.
  - intros Hsmall.
    destruct (factorize_total n (conj Hn Hsmall)) as (d & Hrun & _).
    exists d. exact Hrun.
  - intros d Hrun.
    destruct (factorize_returns n d Hrun) as (Hnd & _ & Hprod & Hempty).
    split; [exact Hnd|]. split; [exact Hprod | apply Hempty].
Qed.

Lemma factorize_round_trip_witness :
  0 <= 360
  /\ 360 < 2 ^ 52
  /\ f_int.factorize 360 = Ok [(2, 3); (3, 2); (5, 1)]
  /\ (exists d, f_int.factorize 360 = Ok d)
  /\ NoDup (Dict.keys [(2, 3); (3, 2); (5, 1)])
  /\ (1 <= 360 -> f_int.product [(2, 3); (3, 2); (5, 1)] = 360)
  /\ (360 <= 1 -> [(2, 3); (3, 2); (5, 1)] = Dict.empty).
Proof.
  assert (Hn : 0 <= 360) by lia.
  assert (Hsmall : 360 < 2 ^ 52) by reflexivity.
  assert (Hrun : f_int.factorize 360 = Ok [(2, 3); (3, 2); (5, 1)])
    by reflexivity.
  split; [exact Hn|]. split; [exact Hsmall|]. split; [exact Hrun|].
  split; [exact (proj1 (factorize_round_trip 360 Hn) Hsmall)|].
  exact (proj2 (factorize_round_trip 360 Hn) _ Hrun).
Defined.

(** *** Where the rounded root falls below the integer square root *)













(** ** The execution engine *)

(** Unfolds the plumbing of a method body. *)
Ltac run_method := unfold mbind, read, lift, modify, mret; cbn [fst snd].

(** Closes a conjunction of bounds on numerals. *)
Ltac in_range :=
  cbn [fst snd]; repeat split; first [lia | reflexivity | discriminate].

Lemma last_entry_app (l : list Z) (x : Z) : last_entry (l ++ [x]) = Ok x.
Proof.
  induction l as [|y l IH]; [reflexivity|].
  change ((y :: l) ++ [x]) with (y :: (l ++ [x])). cbn [last_entry].
  destruct (l ++ [x]) eqn:E.
  - destruct l; discriminate.
  - exact IH.
Qed.

Lemma last_entry_Ok (l : list Z) (x : Z) :
  last_entry l = Ok x -> exists l', l = l' ++ [x].
Proof.
  induction l as [|y l IH]; [discriminate|].
  cbn [last_entry]. destruct l as [|z l].
  - intros [= ->]. exists []. reflexivity.
  - intros H. destruct (IH H) as [l' Hl']. exists (y :: l').
    rewrite Hl'. reflexivity.
Qed.

(** With [verbose > 0] the new state is factorized for display, which
    needs it non-negative and within the range of the floating-point
    root. *)
Lemma display_ok (verbose x : Z) :
  (0 < verbose -> 0 <= x < 2 ^ 52) ->
  exists d,
    (if verbose >? 0 then f_int.factorize x else Ok Dict.empty) = Ok d.
Proof.
  intros H. destruct (verbose >? 0) eqn:E.
  - apply Z.gtb_lt in E. destruct (factorize_total x (H E)) as (d & Hd & _).
    exists d. exact Hd.
  - exists Dict.empty. reflexivity.
Qed.

(** The scan from position [i] on: either it stops at the first fraction
    that applies, or none applies and 0 is appended. *)
Lemma run_step_from_spec (verbose cur : Z) (fs : list (Z * Z)) :
  forall (i : nat) (self : t),
    Forall (fun fr => snd fr <> 0) fs ->
    last_entry (N self) = Ok cur ->
    (forall fr, In fr fs -> applies cur fr ->
                0 < verbose -> 0 <= fst fr * cur / snd fr < 2 ^ 52) ->
    (exists k fr,
        nth_error fs k = Some fr
        /\ applies cur fr
        /\ (forall j fr', (j < k)%nat -> nth_error fs j = Some fr' ->
                          ~ applies cur fr')
        /\ run_step_from verbose i fs self
           = (Ok tt, append_transition (i + k)
                       (append_N (fst fr * cur / snd fr) self)))
    \/ ((forall fr, In fr fs -> ~ applies cur fr)
        /\ run_step_from verbose i fs self = (Ok tt, append_N 0 self)).
Proof.
  induction fs as [|[n d] fs IH]; intros i self Hnz Hlast Hshow.
  - right. split; [intros fr []|]. reflexivity.
  - inversion Hnz as [|? ? Hd Hnz']; subst. cbn [snd] in Hd.
    cbn [run_step_from]. run_method. rewrite Hlast. unfold py_mod, py_floordiv.
    replace (d =? 0) with false by (symmetry; apply Z.eqb_neq; exact Hd).
    destruct ((n * cur) mod d =? 0) eqn:Hmod.
    + apply Z.eqb_eq in Hmod. left. exists 0%nat, (n, d).
      split; [reflexivity|]. split; [exact Hmod|].
      split; [intros j fr' Hj; inversion Hj|].
      destruct (display_ok verbose (n * cur / d)) as [shown Hshown].
      { intros Hv. apply (Hshow (n, d)); [left; reflexivity | exact Hmod
                                          | exact Hv]. }
      rewrite Hshown. rewrite Nat.add_0_r. reflexivity.
    + apply Z.eqb_neq in Hmod.
      destruct (IH (S i) self Hnz' Hlast) as
        [(k & fr & Hnth & Happ & Hfirst & Hrun) | (Hnone & Hrun)].
      * intros fr Hin. apply Hshow. right; exact Hin.
      * left. exists (S k), fr. split; [exact Hnth|]. split; [exact Happ|].
        split.
        -- intros [|j] fr' Hj Hnth'.
           ++ injection Hnth' as <-. exact Hmod.
           ++ apply (Hfirst j); [lia | exact Hnth'].
        -- rewrite Hrun. rewrite <- plus_n_Sm. reflexivity.
      * right. split; [|exact Hrun].
        intros fr [<-|Hin]; [exact Hmod | apply Hnone, Hin].
Qed.

Lemma valid_nonzero (fs : list (Z * Z)) :
  valid_program fs -> Forall (fun fr => snd fr <> 0) fs.
Proof.
  apply Forall_impl. intros fr H. lia.
Qed.

Lemma displayable_next (verbose cur : Z) (fs : list (Z * Z)) :
  valid_program fs -> displayable verbose cur fs ->
  forall fr, In fr fs -> 0 < verbose ->
             0 <= fst fr * cur / snd fr < 2 ^ 52.
Proof.
  intros Hvalid Hshow fr Hin Hv. destruct (Hshow Hv) as [Hcur Hnum].
  unfold valid_program in Hvalid. rewrite Forall_forall in Hvalid, Hnum.
  specialize (Hvalid fr Hin). specialize (Hnum fr Hin). cbn beta in *.
  destruct Hnum as [Hn [_ Hprod]]. split; [apply Z.div_pos; nia|].
  apply Z.le_lt_trans with (fst fr * cur); [|exact Hprod].
  apply Z.div_le_upper_bound; nia.
Qed.

Example sample_game_step :
  run_step 0 sample_game
  = (Ok tt, mk [(3, 2); (1, 2); (5, 7)] [8; 4; 7; 5] [1%nat; 1%nat; 2%nat]
               [(3, 0); (2, 0); (5, 0); (7, 0)]).
Proof. reflexivity. Qed.

(** C1: on a valid program and a trace ending in [cur], one step (silent,
    or at [verbose > 0] with a state and fractions that can be displayed)
    raises nothing and makes the trace exactly one entry longer.  It takes
    the first fraction [(n, d)], in program order, with
    [(n * cur) mod d = 0], appends [(n * cur) / d] and records the index of
    that fraction as the transition; when no fraction passes the test it
    appends 0 and records no transition. *)
Theorem run_step_spec (verbose cur : Z) (self : t) :
  valid_program (f self) ->
  last_entry (N self) = Ok cur ->
  displayable verbose cur (f self) ->
  exists self',
    run_step verbose self = (Ok tt, self')
    /\ f self' = f self
    /\ registers self' = registers self
    /\ List.length (N self') = S (List.length (N self))
    /\ ((exists i n d,
            nth_error (f self) i = Some (n, d)
            /\ (n * cur) mod d = 0
            /\ (forall j n' d', (j < i)%nat ->
                                nth_error (f self) j = Some (n', d') ->
                                (n' * cur) mod d' <> 0)
            /\ N self' = N self ++ [n * cur / d]
            /\ transitions self' = transitions self ++ [i])
        \/ ((forall n d, In (n, d) (f self) -> (n * cur) mod d <> 0)
            /\ N self' = N self ++ [0]
            /\ transitions self' = transitions self)).
Proof.
  intros Hvalid Hlast Hshow. unfold run_step. run_method.
  destruct (run_step_from_spec verbose cur (f self) 0 self
              (valid_nonzero _ Hvalid) Hlast)
    as [(k & [n d] & Hnth & Happ & Hfirst & Hrun) | (Hnone & Hrun)].
  - intros fr Hin _. apply (displayable_next verbose cur (f self)); assumption.
  - rewrite Hrun. eexists. split; [reflexivity|].
    split; [reflexivity|]. split; [reflexivity|].
    split; [cbn; rewrite length_app; cbn; lia|].
    left. exists k, n, d. split; [exact Hnth|]. split; [exact Happ|].
    split; [|split; reflexivity].
    intros j n' d' Hj Hnth'. apply (Hfirst j (n', d') Hj Hnth').
  - rewrite Hrun. eexists. split; [reflexivity|].
    split; [reflexivity|]. split; [reflexivity|].
    split; [cbn; rewrite length_app; cbn; lia|].
    right. split; [|split; reflexivity].
    intros n d Hin. apply (Hnone (n, d) Hin).
Qed.

Lemma run_step_spec_witness :
  valid_program (f sample_game)
  /\ last_entry (N sample_game) = Ok 7
  /\ displayable 1 7 (f sample_game)
  /\ exists self',
      run_step 1 sample_game = (Ok tt, self')
      /\ f self' = f sample_game
      /\ registers self' = registers sample_game
      /\ List.length (N self') = S (List.length (N sample_game))
      /\ ((exists i n d,
              nth_error (f sample_game) i = Some (n, d)
              /\ (n * 7) mod d = 0
              /\ (forall j n' d', (j < i)%nat ->
                                  nth_error (f sample_game) j = Some (n', d') ->
                                  (n' * 7) mod d' <> 0)
              /\ N self' = N sample_game ++ [n * 7 / d]
              /\ transitions self' = transitions sample_game ++ [i])
          \/ ((forall n d, In (n, d) (f sample_game) -> (n * 7) mod d <> 0)
              /\ N self' = N sample_game ++ [0]
              /\ transitions self' = transitions sample_game)).
Proof.
  assert (Hvalid : valid_program (f sample_game)) by (repeat constructor).
  assert (Hlast : last_entry (N sample_game) = Ok 7) by reflexivity.
  assert (Hshow : displayable 1 7 (f sample_game)).
  { intros _. split; [in_range|].
    repeat (apply Forall_cons || apply Forall_nil); in_range. }
  split; [exact Hvalid|]. split; [exact Hlast|]. split; [exact Hshow|].
  apply (run_step_spec 1 7 sample_game Hvalid Hlast Hshow).
Defined.

(** One step on a valid program, silent or with a state that can be
    displayed: a state is appended. *)
Lemma run_step_next (verbose cur : Z) (self : t) :
  valid_program (f self) ->
  last_entry (N self) = Ok cur ->
  displayable verbose cur (f self) ->
  exists self' next,
    run_step verbose self = (Ok tt, self')
    /\ f self' = f self
    /\ registers self' = registers self
    /\ N self' = N self ++ [next].
Proof.
  intros Hvalid Hlast Hshow. unfold run_step. run_method.
  destruct (run_step_from_spec verbose cur (f self) 0 self
              (valid_nonzero _ Hvalid) Hlast)
    as [(k & fr & Hnth & _ & _ & Hrun) | (_ & Hrun)].
  - intros fr Hin _. apply (displayable_next verbose cur (f self)); assumption.
  - rewrite Hrun. eexists. exists (fst fr * cur / snd fr).
    split; [reflexivity|]. split; [reflexivity|]. split; reflexivity.
  - rewrite Hrun. eexists. exists 0.
    split; [reflexivity|]. split; [reflexivity|]. split; reflexivity.
Qed.

(** One step on a valid program, at any [verbose]: the next state of the
    fraction game is appended, unless the display of that state raises,
    which leaves the game as it was. *)
Lemma run_step_from_valid (verbose cur : Z) (fs : list (Z * Z)) :
  forall (i : nat) (self : t),
    Forall (fun fr => snd fr <> 0) fs ->
    last_entry (N self) = Ok cur ->
    (exists self',
        run_step_from verbose i fs self = (Ok tt, self')
        /\ N self' = N self ++ [next_state fs cur]
        /\ f self' = f self
        /\ registers self' = registers self)
    \/ (0 < verbose
        /\ exists e, (e = TypeError \/ e = OverflowError)
                     /\ run_step_from verbose i fs self = (Raise e, self)).
Proof.
  induction fs as [|[n d] fs IH]; intros i self Hnz Hlast.
  - left. eexists. split; [reflexivity|]. repeat split; reflexivity.
  - inversion Hnz as [|? ? Hd Hnz']; subst. cbn [snd] in Hd.
    cbn [run_step_from next_state]. run_method. rewrite Hlast.
    unfold py_mod, py_floordiv.
    replace (d =? 0) with false by (symmetry; apply Z.eqb_neq; exact Hd).
    destruct ((n * cur) mod d =? 0) eqn:Hmod; [|apply IH; assumption].
    destruct (verbose >? 0) eqn:Hv.
    + apply Z.gtb_lt in Hv.
      destruct (factorize_outcome (n * cur / d)) as [[shown ->] | [-> | ->]].
      * left. eexists. split; [reflexivity|]. repeat split; reflexivity.
      * right. split; [exact Hv|]. exists TypeError.
        split; [left; reflexivity | reflexivity].
      * right. split; [exact Hv|]. exists OverflowError.
        split; [right; reflexivity | reflexivity].
    + left. eexists. split; [reflexivity|]. repeat split; reflexivity.
Qed.

(** [run] on a trace that already ends in 0: the loop body is not entered,
    whatever the fuel. *)
Lemma run_loop_halted (fuel : nat) (verbose max_steps : Z) (self : t) :
  last_entry (N self) = Ok 0 ->
  run_loop fuel verbose max_steps self = (Ok tt, self).
Proof.
  intros Hlast. destruct fuel; cbn [run_loop]; run_method;
    rewrite Hlast; reflexivity.
Qed.

(** The loop of [run]: with fuel above the distance from the trace length
    to the budget it ends.  It appends the states of successive steps,
    then 0 when the budget is reached; it returns with a trace ending in
    0, unless a display raised, at a state that is not displayable. *)
Lemma run_loop_spec (verbose max_steps : Z) (fuel : nat) :
  forall (self : t) (cur : Z),
    valid_program (f self) ->
    last_entry (N self) = Ok cur ->
    (Z.to_nat (max_steps - Z.of_nat (List.length (N self))) < fuel)%nat ->
    exists r self' steps cap,
      run_loop fuel verbose max_steps self = (r, self')
      /\ (r = Ok tt
          \/ (0 < verbose
              /\ (exists e, r = Raise e)
              /\ exists last,
                  last_entry (N self') = Ok last
                  /\ ~ displayable verbose last (f self)))
      /\ f self' = f self
      /\ registers self' = registers self
      /\ N self' = N self ++ steps ++ cap
      /\ steps_from (f self) cur steps
      /\ (cap = []
          \/ (cap = [0] /\ max_steps < Z.of_nat (List.length (N self'))))
      /\ (r = Ok tt ->
          last_entry (N self') = Ok 0
          /\ Z.of_nat (List.length (N self'))
             <= Z.max (Z.of_nat (List.length (N self)) + 2) (max_steps + 1)).
Proof.
  induction fuel as [|fuel IH]; intros self cur Hvalid Hlast Hfuel; [lia|].
  destruct (Z.eq_dec cur 0) as [->|Hcur].
  - rewrite run_loop_halted by exact Hlast.
    exists (Ok tt), self, [], []. split; [reflexivity|].
    split; [left; reflexivity|]. split; [reflexivity|].
    split; [reflexivity|]. split; [rewrite app_nil_r; reflexivity|].
    split; [constructor|]. split; [left; reflexivity|].
    intros _. split; [exact Hlast | lia].
  - cbn [run_loop]. run_method. rewrite Hlast.
    replace (cur =? 0) with false by (symmetry; apply Z.eqb_neq; exact Hcur).
    assert (Hstep :
              (exists self1,
                  run_step verbose self = (Ok tt, self1)
                  /\ N self1 = N self ++ [next_state (f self) cur]
                  /\ f self1 = f self
                  /\ registers self1 = registers self)
              \/ (0 < verbose
                  /\ exists e, (e = TypeError \/ e = OverflowError)
                               /\ run_step verbose self = (Raise e, self))).
    { unfold run_step. run_method.
      apply run_step_from_valid; [apply valid_nonzero; exact Hvalid|].
      exact Hlast. }
    destruct Hstep as [(self1 & Hstep & HN1 & Hf1 & Hr1)
                      | (Hv & e & He & Hstep)].
    + rewrite Hstep. cbn beta iota.
      assert (Hlen1 : List.length (N self1) = S (List.length (N self)))
        by (rewrite HN1, length_app; cbn; lia).
      destruct (Z.of_nat (List.length (N self1)) + 1 >? max_steps) eqn:Hcap;
        cbn beta iota.
      * rewrite run_loop_halted by apply last_entry_app.
        rewrite Z.gtb_ltb in Hcap. apply Z.ltb_lt in Hcap.
        exists (Ok tt), (append_N 0 self1), [next_state (f self) cur], [0].
        split; [reflexivity|]. split; [left; reflexivity|].
        split; [exact Hf1|]. split; [exact Hr1|].
        split; [cbn [N append_N set_N]; rewrite HN1, <- app_assoc;
                reflexivity|].
        split; [constructor; [exact Hcur | constructor]|].
        assert (Hlen' : List.length (N (append_N 0 self1))
                        = S (S (List.length (N self))))
          by (cbn [N append_N set_N]; rewrite length_app, Hlen1; cbn; lia).
        split; [right; split; [reflexivity | lia]|].
        intros _. split; [apply last_entry_app | lia].
      * rewrite Z.gtb_ltb in Hcap. apply Z.ltb_ge in Hcap.
        destruct (IH self1 (next_state (f self) cur))
          as (r & self' & steps & cap & Hrun & Hr & Hf' & Hregs' & HN'
              & Hsteps & Hcap' & Hok).
        -- rewrite Hf1. exact Hvalid.
        -- rewrite HN1. apply last_entry_app.
        -- lia.
        -- exists r, self', (next_state (f self) cur :: steps), cap.
           rewrite Hf1 in Hr.
           split; [exact Hrun|]. split; [exact Hr|].
           split; [congruence|]. split; [congruence|].
           split; [rewrite HN', HN1, <- app_assoc; reflexivity|].
           rewrite Hf1 in Hsteps.
           split; [constructor; [exact Hcur | exact Hsteps]|].
           split; [exact Hcap'|].
           intros Hrok. destruct (Hok Hrok) as [Hlast' Hlen'].
           split; [exact Hlast' | lia].
    + rewrite Hstep.
      exists (Raise e), self, [], []. split; [reflexivity|].
      split.
      { right. split; [exact Hv|]. split; [exists e; reflexivity|].
        exists cur. split; [exact Hlast|]. intros Hshow.
        destruct (run_step_next verbose cur self Hvalid Hlast Hshow)
          as (shown & next & Hnext & _).
        rewrite Hnext in Hstep. discriminate Hstep. }
      split; [reflexivity|]. split; [reflexivity|].
      split; [rewrite app_nil_r; reflexivity|].
      split; [constructor|]. split; [left; reflexivity|].
      intros Hrok. discriminate Hrok.
Qed.

(** An outcome other than running out of fuel does not depend on the
    fuel: more fuel gives the same outcome and the same object. *)
Lemma run_loop_more_fuel (verbose max_steps : Z) (fuel : nat) :
  forall (self : t) (r : result unit) (self' : t) (fuel' : nat),
    run_loop fuel verbose max_steps self = (r, self') ->
    r <> OutOfFuel ->
    (fuel <= fuel')%nat ->
    run_loop fuel' verbose max_steps self = (r, self').
Proof.
  induction fuel as [|fuel IH]; intros self r self' fuel' Hrun Hr Hle.
  - destruct fuel' as [|fuel']; [exact Hrun|].
    cbn [run_loop] in *. revert Hrun. run_method.
    destruct (last_entry (N self)) as [cur| |]; try (intros H; exact H).
    destruct (cur =? 0); [intros H; exact H|].
    intros [= <- <-]. contradiction Hr; reflexivity.
  - destruct fuel' as [|fuel']; [lia|].
    cbn [run_loop] in *. revert Hrun. run_method.
    destruct (last_entry (N self)) as [cur| |]; try (intros H; exact H).
    destruct (cur =? 0); [intros H; exact H|].
    destruct (run_step verbose self) as [[[]| |] self1];
      try (intros H; exact H).
    destruct (Z.of_nat (List.length (N self1)) + 1 >? max_steps);
      intros Hrun; apply (IH _ _ _ fuel' Hrun Hr); lia.
Qed.

(** C3: on a valid program and for every step budget, [run] ends: the
    fuel it hands to its loop is enough, and any larger fuel gives the
    same outcome and the same object.  The loop appends the states of
    successive steps of the fraction game, each taken from a state other
    than 0, until the last entry is 0 or the budget is reached, where 0 is
    appended.  A silent run ([verbose <= 0]) raises nothing; at
    [verbose > 0] the display of a step may raise, which ends the run
    there, with the trace as the steps before made it, and this happens
    only at a state that is not displayable.  On return the last entry of
    the trace is 0, and the trace has grown to at most [max_steps + 1]
    entries (or by at most two when it was already at the budget). *)
Theorem run_terminates (N_0 : option Z) (verbose max_steps cur : Z)
        (self : t) :
  valid_program (f self) ->
  last_entry (N (snd (run_reset N_0 self))) = Ok cur ->
  exists r self' steps cap,
    run N_0 verbose max_steps self = (r, self')
    /\ (r = Ok tt
        \/ (0 < verbose
            /\ (exists e, r = Raise e)
            /\ exists last,
                last_entry (N self') = Ok last
                /\ ~ displayable verbose last (f self)))
    /\ f self' = f self
    /\ N self' = N (snd (run_reset N_0 self)) ++ steps ++ cap
    /\ steps_from (f self) cur steps
    /\ (cap = []
        \/ (cap = [0] /\ max_steps < Z.of_nat (List.length (N self'))))
    /\ (r = Ok tt ->
        last_entry (N self') = Ok 0
        /\ Z.of_nat (List.length (N self'))
           <= Z.max (Z.of_nat (List.length (N (snd (run_reset N_0 self))))
                     + 2)
                    (max_steps + 1))
    /\ (forall fuel,
           (run_fuel max_steps (N (snd (run_reset N_0 self))) <= fuel)%nat ->
           run_loop fuel verbose max_steps (snd (run_reset N_0 self))
           = (r, self')).
Proof.
  intros Hvalid Hlast.
  assert (Hreset : exists self0,
             run_reset N_0 self = (Ok tt, self0) /\ f self0 = f self).
  { unfold run_reset. destruct N_0 as [n0|].
    - destruct (n0 =? 0); eexists; split; reflexivity.
    - eexists; split; reflexivity. }
  destruct Hreset as (self0 & Hreset & Hf0).
  rewrite Hreset in *. cbn [snd] in *.
  destruct (run_loop_spec verbose max_steps (run_fuel max_steps (N self0))
              self0 cur)
    as (r & self' & steps & cap & Hrun & Hr & Hf' & _ & HN' & Hsteps & Hcap
        & Hok).
  - rewrite Hf0. exact Hvalid.
  - exact Hlast.
  - unfold run_fuel. lia.
  - exists r, self', steps, cap. rewrite Hf0 in Hr. split.
    + unfold run. run_method. rewrite Hreset. exact Hrun.
    + split; [exact Hr|]. split; [congruence|]. split; [exact HN'|].
      split; [rewrite <- Hf0; exact Hsteps|]. split; [exact Hcap|].
      split; [exact Hok|].
      intros fuel Hfuel.
      apply (run_loop_more_fuel verbose max_steps _ _ _ _ fuel Hrun);
        [|exact Hfuel].
      destruct Hr as [-> | (_ & [e ->] & _)]; discriminate.
Qed.

Example halving_game_run :
  run None 0 100 halving_game
  = (Ok tt, mk [(1, 2)] [8; 4; 2; 1; 0] [0%nat; 0%nat; 0%nat] [(2, 0)]).
Proof. reflexivity. Qed.

(** The first states of the prime-generating program, cut at a budget of
    8 entries. *)
Example primegame_run :
  N (snd (run None 0 8 primegame))
  = [2; 15; 825; 725; 1925; 2275; 425; 390; 0].
Proof. vm_compute. reflexivity. Qed.

Lemma run_terminates_witness :
  valid_program (f halving_game)
  /\ last_entry (N (snd (run_reset None halving_game))) = Ok 8
  /\ exists r self' steps cap,
      run None 0 100 halving_game = (r, self')
      /\ (r = Ok tt
          \/ (0 < 0
              /\ (exists e, r = Raise e)
              /\ exists last,
                  last_entry (N self') = Ok last
                  /\ ~ displayable 0 last (f halving_game)))
      /\ f self' = f halving_game
      /\ N self' = N (snd (run_reset None halving_game)) ++ steps ++ cap
      /\ steps_from (f halving_game) 8 steps
      /\ (cap = []
          \/ (cap = [0] /\ 100 < Z.of_nat (List.length (N self'))))
      /\ (r = Ok tt ->
          last_entry (N self') = Ok 0
          /\ Z.of_nat (List.length (N self'))
             <= Z.max (Z.of_nat (List.length
                                   (N (snd (run_reset None halving_game))))
                       + 2)
                      (100 + 1))
      /\ (forall fuel,
             (run_fuel 100 (N (snd (run_reset None halving_game)))
              <= fuel)%nat ->
             run_loop fuel 0 100 (snd (run_reset None halving_game))
             = (r, self')).
Proof.
  assert (Hvalid : valid_program (f halving_game)) by (repeat constructor).
  assert (Hlast : last_entry (N (snd (run_reset None halving_game))) = Ok 8)
    by reflexivity.
  split; [exact Hvalid|]. split; [exact Hlast|].
  apply (run_terminates None 0 100 8 halving_game Hvalid Hlast).
Defined.

(** C4: the halted state is absorbing.  On an engine whose trace ends in
    0, [run] without a reset ([N_0] absent or 0) raises nothing and leaves
    the object, and so the trace, as it was. *)
Theorem run_halted_absorbing (N_0 : option Z) (verbose max_steps : Z)
        (self : t) :
  N_0 = None \/ N_0 = Some 0 ->
  last_entry (N self) = Ok 0 ->
  run N_0 verbose max_steps self = (Ok tt, self).
Proof.
  intros HN0 Hlast. unfold run. run_method.
  assert (Hreset : run_reset N_0 self = (Ok tt, self))
    by (destruct HN0 as [-> | ->]; reflexivity).
  rewrite Hreset. apply run_loop_halted, Hlast.
Qed.

Lemma run_halted_absorbing_witness :
  (@None Z = None \/ @None Z = Some 0)
  /\ last_entry (N halted_game) = Ok 0
  /\ run None 0 100 halted_game = (Ok tt, halted_game).
Proof.
  assert (HN0 : @None Z = None \/ None = Some 0) by (left; reflexivity).
  assert (Hlast : last_entry (N halted_game) = Ok 0) by reflexivity.
  split; [exact HN0|]. split; [exact Hlast|].
  apply (run_halted_absorbing None 0 100 halted_game HN0 Hlast).
Defined.

(** *** The transitions are only ever appended to *)

Lemma run_step_from_history (ts : list nat) (verbose : Z)
      (fs : list (Z * Z)) :
  forall (i : nat) (self : t),
    run_step_from verbose i fs (with_history ts self)
    = (fst (run_step_from verbose i fs self),
       with_history ts (snd (run_step_from verbose i fs self))).
Proof.
  induction fs as [|[n d] fs IH]; intros i self.
  - reflexivity.
  - cbn [run_step_from]. run_method.
    change (N (with_history ts self)) with (N self).
    destruct (last_entry (N self)) as [cur| |]; try reflexivity.
    destruct (py_mod (n * cur) d) as [r| |]; try reflexivity.
    destruct (r =? 0); [|apply IH].
    destruct (py_floordiv (n * cur) d) as [next| |]; try reflexivity.
    destruct (if verbose >? 0 then f_int.factorize next else Ok Dict.empty)
      as [shown| |]; try reflexivity.
    cbn. unfold with_history, append_transition, append_N, set_transitions,
      set_N. cbn. rewrite app_assoc. reflexivity.
Qed.

Lemma run_step_history (ts : list nat) (verbose : Z) (self : t) :
  run_step verbose (with_history ts self)
  = (fst (run_step verbose self), with_history ts (snd (run_step verbose self))).
Proof.
  unfold run_step. run_method. apply run_step_from_history.
Qed.

Lemma run_loop_history (ts : list nat) (verbose max_steps : Z) (fuel : nat) :
  forall self : t,
    run_loop fuel verbose max_steps (with_history ts self)
    = (fst (run_loop fuel verbose max_steps self),
       with_history ts (snd (run_loop fuel verbose max_steps self))).
Proof.
  induction fuel as [|fuel IH]; intros self; cbn [run_loop]; run_method;
    change (N (with_history ts self)) with (N self);
    (destruct (last_entry (N self)) as [cur| |]; try reflexivity);
    (destruct (cur =? 0); try reflexivity).
  rewrite run_step_history.
  destruct (run_step verbose self) as [[[]| |] self1]; try reflexivity.
  cbn [fst snd]. change (N (with_history ts self1)) with (N self1).
  destruct (Z.of_nat (List.length (N self1)) + 1 >? max_steps).
  - apply (IH (append_N 0 self1)).
  - apply IH.
Qed.

(** C10: [run] with a starting value other than 0 replaces the trace by
    the one-entry list of that value and leaves the accumulated transitions
    in place: the whole run does what it does on an engine without
    recorded transitions, with the old transitions kept in front of the
    new ones, so that the list no longer matches the steps of the new
    trace one to one.  With the starting value 0 or absent there is no
    reset at all. *)
Theorem run_reset_keeps_transitions (verbose max_steps : Z) (self : t) :
  (forall n0 : Z,
      n0 <> 0 ->
      run_reset (Some n0) self = (Ok tt, set_N [n0] self)
      /\ transitions (set_N [n0] self) = transitions self
      /\ run (Some n0) verbose max_steps self
         = (fst (run (Some n0) verbose max_steps (set_transitions [] self)),
            with_history (transitions self)
              (snd (run (Some n0) verbose max_steps
                        (set_transitions [] self)))))
  /\ run_reset (Some 0) self = (Ok tt, self)
  /\ run_reset None self = (Ok tt, self).
Proof.
  split; [|split; reflexivity].
  intros n0 Hn0.
  assert (Hreset : forall s, run_reset (Some n0) s = (Ok tt, set_N [n0] s)).
  { intros s. unfold run_reset.
    replace (n0 =? 0) with false by (symmetry; apply Z.eqb_neq; exact Hn0).
    reflexivity. }
  split; [apply Hreset|]. split; [reflexivity|].
  assert (Hself : set_N [n0] self
                  = with_history (transitions self)
                      (set_N [n0] (set_transitions [] self))).
  { unfold with_history, set_N, set_transitions. cbn.
    rewrite app_nil_r. reflexivity. }
  unfold run. run_method. rewrite !Hreset.
  change (N (set_N [n0] self)) with (N (set_N [n0] (set_transitions [] self))).
  rewrite Hself. apply run_loop_history.
Qed.

Example sample_game_rerun :
  run (Some 2) 0 100 sample_game
  = (Ok tt, mk [(3, 2); (1, 2); (5, 7)] [2; 3; 0] [1%nat; 1%nat; 0%nat]
               [(3, 0); (2, 0); (5, 0); (7, 0)]).
Proof. reflexivity. Qed.

Lemma run_reset_keeps_transitions_witness :
  2 <> 0
  /\ run_reset (Some 2) sample_game = (Ok tt, set_N [2] sample_game)
  /\ transitions (set_N [2] sample_game) = transitions sample_game
  /\ run (Some 2) 0 100 sample_game
     = (fst (run (Some 2) 0 100 (set_transitions [] sample_game)),
        with_history (transitions sample_game)
          (snd (run (Some 2) 0 100 (set_transitions [] sample_game)))).
Proof.
  assert (Hn0 : 2 <> 0) by lia.
  split; [exact Hn0|].
  apply (proj1 (run_reset_keeps_transitions 0 100 sample_game) 2 Hn0).
Defined.

(** ** Construction *)

Lemma check_fraction_cases (frac : value) :
  (exists n d, frac = VTuple [VInt n; VInt d]
               /\ check_fraction frac = Ok (n, d))
  \/ (~ is_int_pair frac
      /\ exists why, check_fraction frac = Raise (RuntimeError why)).
Proof.
  assert (Hbad : forall why,
             ~ is_int_pair frac ->
             check_fraction frac = Raise (RuntimeError why) ->
             ~ is_int_pair frac
             /\ exists why, check_fraction frac = Raise (RuntimeError why)).
  { intros why Hno Hrun. split; [exact Hno | exists why; exact Hrun]. }
  destruct frac as [z|b|m e|s| |items|items];
    try (right; eapply Hbad; [intros (n & d & H); discriminate H
                             | reflexivity]).
  destruct items as [|numerator [|denominator [|third rest]]];
    try (right; eapply Hbad; [intros (n & d & H); discriminate H
                             | reflexivity]).
  destruct numerator as [n|b|m e|s| |items|items];
    try (right; eapply Hbad; [intros (n' & d' & H); discriminate H
                             | reflexivity]).
  destruct denominator as [d|b|m e|s| |items|items];
    try (right; eapply Hbad; [intros (n' & d' & H); discriminate H
                             | reflexivity]).
  left. exists n, d. split; reflexivity.
Qed.

Lemma check_fractions_cases (args : list value) :
  (exists fs, args = map as_argument fs /\ check_fractions args = Ok fs)
  \/ (Exists (fun frac => ~ is_int_pair frac) args
      /\ exists why, check_fractions args = Raise (RuntimeError why)).
Proof.
  induction args as [|frac args IH].
  - left. exists []. split; reflexivity.
  - cbn [check_fractions].
    destruct (check_fraction_cases frac)
      as [(n & d & -> & Hrun) | (Hbad & why & Hrun)].
    + rewrite Hrun. cbn [rbind].
      destruct IH as [(fs & -> & Hrest) | (Hbad & why & Hrest)].
      * left. exists ((n, d) :: fs). rewrite Hrest. split; reflexivity.
      * right. rewrite Hrest. split; [right; exact Hbad|].
        exists why. reflexivity.
    + right. rewrite Hrun. split; [left; exact Hbad|].
      exists why. reflexivity.
Qed.

Lemma Forall_not_Exists_pairs (fs : list (Z * Z)) :
  ~ Exists (fun frac => ~ is_int_pair frac) (map as_argument fs).
Proof.
  intros H. apply Exists_exists in H. destruct H as (frac & Hin & Hbad).
  apply in_map_iff in Hin. destruct Hin as ([n d] & <- & _).
  apply Hbad. exists n, d. reflexivity.
Qed.

Lemma collect_registers_outcome (fs : list (Z * Z)) :
  forall regs,
    (exists regs', collect_registers fs regs = Ok regs')
    \/ (collect_registers fs regs = Raise TypeError
        \/ collect_registers fs regs = Raise OverflowError).
Proof.
  induction fs as [|[n d] fs IH]; intros regs; cbn [collect_registers].
  - left. exists regs. reflexivity.
  - destruct (factorize_outcome n) as [[numerator ->] | [-> | ->]];
      [|right; left; reflexivity|right; right; reflexivity].
    cbn [rbind].
    destruct (factorize_outcome d) as [[denominator ->] | [-> | ->]];
      [|right; left; reflexivity|right; right; reflexivity].
    cbn [rbind]. apply IH.
Qed.

Lemma collect_registers_total (fs : list (Z * Z)) :
  Forall (fun fr => 0 <= fst fr < 2 ^ 52 /\ 0 <= snd fr < 2 ^ 52) fs ->
  forall regs, exists regs', collect_registers fs regs = Ok regs'.
Proof.
  induction fs as [|[n d] fs IH]; intros Hfs regs; cbn [collect_registers].
  - exists regs. reflexivity.
  - inversion Hfs as [|? ? [Hn Hd] Hfs']; subst. cbn [fst snd] in Hn, Hd.
    destruct (factorize_total n Hn) as (numerator & -> & _).
    destruct (factorize_total d Hd) as (denominator & -> & _).
    cbn [rbind]. apply IH, Hfs'.
Qed.

Lemma as_argument_inj (fs fs' : list (Z * Z)) :
  map as_argument fs = map as_argument fs' -> fs = fs'.
Proof.
  revert fs'. induction fs as [|[n d] fs IH];
    intros [|[n' d'] fs'] Heq; try discriminate Heq; [reflexivity|].
  injection Heq as -> -> Heq. f_equal. apply IH. exact Heq.
Qed.

(** The constructor on arguments that pass its checks: the attributes are
    assigned in order, and only the computation of the registers can
    still raise. *)
Lemma init_well_typed (fs : list (Z * Z)) (n0 : Z) (self : t) :
  __init__ (map as_argument fs) (VInt n0) self
  = match collect_registers fs Dict.empty with
    | Ok regs => (Ok tt, mk fs [n0] [] regs)
    | Raise e => (Raise e, mk fs [n0] [] (registers self))
    | OutOfFuel => (OutOfFuel, mk fs [n0] [] (registers self))
    end.
Proof.
  unfold __init__, get_registers. run_method.
  destruct (check_fractions_cases (map as_argument fs))
    as [(fs' & Heq & Hrun) | (Hbad & _)].
  - apply as_argument_inj in Heq. subst fs'. rewrite Hrun. cbn.
    destruct (collect_registers fs Dict.empty); reflexivity.
  - exfalso. exact (Forall_not_Exists_pairs fs Hbad).
Qed.

Lemma init_ill_typed (args : list value) (N_0 : value) (self : t) :
  ~ is_int N_0 \/ Exists (fun frac => ~ is_int_pair frac) args ->
  exists why, __init__ args N_0 self = (Raise (RuntimeError why), self).
Proof.
  intros Hbad. unfold __init__. run_method.
  destruct N_0 as [n0|b|m e|str| |items|items];
    try (exists StartNotInt; reflexivity).
  destruct Hbad as [Hbad|Hbad]; [exfalso; apply Hbad; exists n0; reflexivity|].
  destruct (check_fractions_cases args)
    as [(fs & -> & _) | (_ & why & Hrun)].
  - exfalso. exact (Forall_not_Exists_pairs fs Hbad).
  - exists why. rewrite Hrun. reflexivity.
Qed.

Lemma well_typed_or_not (args : list value) (N_0 : value) :
  (exists n0 fs, N_0 = VInt n0 /\ args = map as_argument fs)
  \/ (~ is_int N_0 \/ Exists (fun frac => ~ is_int_pair frac) args).
Proof.
  destruct N_0 as [n0|b|m e|str| |items|items];
    try (right; left; intros (z & H); discriminate H).
  destruct (check_fractions_cases args) as [(fs & -> & _) | (Hbad & _)].
  - left. exists n0, fs. split; reflexivity.
  - right. right. exact Hbad.
Qed.

(** C7: construction fails with the configuration error ([RuntimeError]
    in the code) if and only if the starting value is not an integer or
    some positional argument is not a 2-element tuple of integers; and
    when it fails so, the object is as it was: no attribute has been set
    or changed. *)
Theorem init_configuration_error (args : list value) (N_0 : value)
        (self : t) :
  ((exists why, fst (__init__ args N_0 self) = Raise (RuntimeError why))
   <-> (~ is_int N_0 \/ Exists (fun frac => ~ is_int_pair frac) args))
  /\ (forall why,
         fst (__init__ args N_0 self) = Raise (RuntimeError why) ->
         snd (__init__ args N_0 self) = self)
  /\ ((exists why, new args N_0 = Raise (RuntimeError why))
      <-> (~ is_int N_0 \/ Exists (fun frac => ~ is_int_pair frac) args)).
Proof.
  assert (Hgood : forall n0 fs s why,
             fst (__init__ (map as_argument fs) (VInt n0) s)
             <> Raise (RuntimeError why)).
  { intros n0 fs s why. rewrite init_well_typed.
    destruct (collect_registers_outcome fs Dict.empty)
      as [[regs ->] | [-> | ->]]; discriminate. }
  destruct (well_typed_or_not args N_0) as [(n0 & fs & -> & ->) | Hbad].
  - assert (Hno : ~ (~ is_int (VInt n0)
                     \/ Exists (fun frac => ~ is_int_pair frac)
                               (map as_argument fs))).
    { intros [H|H]; [apply H; exists n0; reflexivity
                    | exact (Forall_not_Exists_pairs fs H)]. }
    split; [|split].
    + split; [intros (why & H); exfalso; exact (Hgood _ _ _ _ H)
             | intros H; contradiction].
    + intros why H. exfalso. exact (Hgood _ _ _ _ H).
    + split; [|intros H; contradiction].
      intros (why & H). exfalso. apply (Hgood n0 fs blank why).
      unfold new in H.
      destruct (__init__ (map as_argument fs) (VInt n0) blank)
        as [[[]|e|] s]; cbn [fst]; try discriminate H.
      injection H as ->. reflexivity.
  - split; [|split].
    + split; [intros _; exact Hbad|]. intros _.
      destruct (init_ill_typed args N_0 self Hbad) as [why Hrun].
      exists why. rewrite Hrun. reflexivity.
    + intros why _.
      destruct (init_ill_typed args N_0 self Hbad) as [why' Hrun].
      rewrite Hrun. reflexivity.
    + split; [intros _; exact Hbad|]. intros _.
      destruct (init_ill_typed args N_0 blank Hbad) as [why Hrun].
      exists why. unfold new. rewrite Hrun. reflexivity.
Qed.

Example init_float_start :
  __init__ [VTuple [VInt 3; VInt 2]] (VFloat 5 (-1)) sample_game
  = (Raise (RuntimeError StartNotInt), sample_game).
Proof. reflexivity. Qed.

Example init_triple :
  new [VTuple [VInt 3; VInt 2]; VTuple [VInt 1; VInt 2; VInt 3]] (VInt 2)
  = Raise (RuntimeError FractionNotPair).
Proof. reflexivity. Qed.

Example init_bool_numerator :
  new [VTuple [VBool true; VInt 2]] (VInt 2)
  = Raise (RuntimeError NumeratorNotInt).
Proof. reflexivity. Qed.

Lemma init_configuration_error_witness :
  fst (__init__ [VTuple [VInt 3; VInt 2]] (VFloat 5 (-1)) sample_game)
  = Raise (RuntimeError StartNotInt)
  /\ snd (__init__ [VTuple [VInt 3; VInt 2]] (VFloat 5 (-1)) sample_game)
     = sample_game.
Proof.
  assert (Hfail :
            fst (__init__ [VTuple [VInt 3; VInt 2]] (VFloat 5 (-1))
                          sample_game)
            = Raise (RuntimeError StartNotInt)) by reflexivity.
  split; [exact Hfail|].
  apply (proj1 (proj2 (init_configuration_error
                         [VTuple [VInt 3; VInt 2]] (VFloat 5 (-1))
                         sample_game)) StartNotInt Hfail).
Defined.

(** C9: the constructor accepts a fraction whose denominator is 0 (a
    program of pairs of integers of [0, 2^52) is accepted whatever its
    denominators: the checks are on the types, and the registers can be
    computed), and a step whose scan reaches such a fraction raises
    [ZeroDivisionError]: the fraction is not skipped, nothing is appended
    and the object is as it was. *)
Theorem zero_denominator_raises :
  (forall (fs : list (Z * Z)) (n0 : Z),
      Forall (fun fr => 0 <= fst fr < 2 ^ 52 /\ 0 <= snd fr < 2 ^ 52) fs ->
      exists regs,
        new (map as_argument fs) (VInt n0) = Ok (mk fs [n0] [] regs))
  /\ (forall (verbose cur n : Z) (self : t) (before after : list (Z * Z)),
         f self = before ++ (n, 0) :: after ->
         last_entry (N self) = Ok cur ->
         Forall (fun fr => snd fr <> 0 /\ (fst fr * cur) mod snd fr <> 0)
                before ->
         run_step verbose self = (Raise ZeroDivisionError, self)).
Proof.
  split.
  - intros fs n0 Hfs. unfold new. rewrite init_well_typed.
    destruct (collect_registers_total fs Hfs Dict.empty) as [regs ->].
    exists regs. reflexivity.
  - intros verbose cur n self before after Hf Hlast Hbefore.
    unfold run_step. run_method. rewrite Hf. clear Hf.
    generalize 0%nat as i.
    induction before as [|[n' d'] before IH]; intros i.
    + cbn [app run_step_from]. run_method. rewrite Hlast. reflexivity.
    + inversion Hbefore as [|? ? [Hd Hmod] Hrest]; subst.
      cbn [fst snd] in Hd, Hmod.
      cbn [app run_step_from]. run_method. rewrite Hlast. unfold py_mod.
      replace (d' =? 0) with false by (symmetry; apply Z.eqb_neq; exact Hd).
      replace ((n' * cur) mod d' =? 0) with false
        by (symmetry; apply Z.eqb_neq; exact Hmod).
      apply IH. exact Hrest.
Qed.

Example zero_game_new :
  new [VTuple [VInt 3; VInt 4]; VTuple [VInt 5; VInt 0]] (VInt 6)
  = Ok zero_game.
Proof. reflexivity. Qed.

Lemma zero_denominator_raises_witness :
  f zero_game = [(3, 4)] ++ (5, 0) :: []
  /\ last_entry (N zero_game) = Ok 6
  /\ Forall (fun fr => snd fr <> 0 /\ (fst fr * 6) mod snd fr <> 0) [(3, 4)]
  /\ run_step 0 zero_game = (Raise ZeroDivisionError, zero_game).
Proof.
  assert (Hf : f zero_game = [(3, 4)] ++ (5, 0) :: []) by reflexivity.
  assert (Hlast : last_entry (N zero_game) = Ok 6) by reflexivity.
  assert (Hbefore :
            Forall (fun fr => snd fr <> 0 /\ (fst fr * 6) mod snd fr <> 0)
                   [(3, 4)]).
  { constructor; [|constructor]. cbn. split; discriminate. }
  split; [exact Hf|]. split; [exact Hlast|]. split; [exact Hbefore|].
  apply (proj2 zero_denominator_raises 0 6 5 zero_game [(3, 4)] []
               Hf Hlast Hbefore).
Defined.

(** ** The registers *)

Section ZeroAll.

Variable P : Z * Z -> Prop.
Hypothesis P_zero : forall k, P (k, 0).



End ZeroAll.





Example primegame_registers :
  get_registers primegame
  = (Ok [(17, 0); (7, 0); (13, 0); (2, 0); (3, 0); (5, 0); (19, 0);
         (23, 0); (29, 0); (11, 0)], primegame).
Proof. vm_compute. reflexivity. Qed.


(** ** The synthesizer *)

Example else_in_the_middle_new :
  new [VTuple [VInt 3; VInt 2]; VTuple [VInt 5; VInt 1];
       VTuple [VInt 7; VInt 3]] (VInt 2)
  = Ok else_in_the_middle.
Proof. reflexivity. Qed.

(** A program whose only fraction of denominator 1 is last and changes a
    register: here the chain is well formed. *)
Example else_last_ok :
  exists lines self',
    python_program 100 (mk [(3, 2); (5, 1)] [2] [] [(3, 0); (2, 0); (5, 0)])
    = (Ok lines, self')
    /\ conditional_ok false false (loop_body lines) = true.
Proof. eexists. eexists. split; [reflexivity|]. reflexivity. Qed.

(** C5 fails on the code: for the program [(3,2), (5,1), (7,3)] the
    fraction [5/1] is emitted as an [else] clause, but the loop over the
    fractions goes on, so that an [elif] clause for [7/3] and one more
    [else] clause follow it: the fraction is not the final alternative,
    and the text is not a program of the host language. *)
Theorem python_equivalent_else_not_final :
  fst (python_program 100 else_in_the_middle)
  = Ok ["# Starting conditions";
        "registers = {}";
        "registers[2] = 1";
        "registers[3] = 0";
        "registers[5] = 0";
        "registers[7] = 0";
        newline ++ "# Main Loop";
        "counter = 0";
        "while sum(registers.values()) > 0:";
        tab ++ "counter += 1";
        tab ++ "if (registers[2] >= 1): # fraction A (3/2)";
        tab ++ tab ++ "registers[2] -= 1";
        tab ++ tab ++ "registers[3] += 1";
        tab ++ "else: # fraction B (5/1)";
        tab ++ tab ++ "registers[5] += 1";
        tab ++ "elif (registers[3] >= 1): # fraction C (7/3)";
        tab ++ tab ++ "registers[3] -= 1";
        tab ++ tab ++ "registers[7] += 1";
        tab ++ "else:";
        tab ++ tab ++ "registers.clear()";
        tab ++ "print(' * '.join([str(factor) + '^' + str(registers[factor]) for factor in registers.keys()]))";
        tab ++ "if counter > 100:";
        tab ++ tab ++ "break"]%string
  /\ (forall lines,
         fst (python_program 100 else_in_the_middle) = Ok lines ->
         conditional_ok false false (loop_body lines) = false)
  /\ (forall lines,
         fst (python_program 100 one_over_one_last) = Ok lines ->
         conditional_ok false false (loop_body lines) = false).
Proof.
  split; [reflexivity|]. split.
  - intros lines H. vm_compute in H. injection H as <-. reflexivity.
  - intros lines H. vm_compute in H. injection H as <-. reflexivity.
Qed.

(** * Further properties *)

(** ** What a step can do *)

(** Whatever the program and the trace: a step either raises and leaves
    the object as it was, or takes the first fraction that applies, or
    finds none and appends 0. *)
Lemma run_step_from_cases (verbose : Z) (fs : list (Z * Z)) :
  forall (i : nat) (self : t) (r : result unit) (self' : t),
    run_step_from verbose i fs self = (r, self') ->
    (r <> Ok tt /\ self' = self)
    \/ (r = Ok tt
        /\ exists k n d cur,
            nth_error fs k = Some (n, d)
            /\ last_entry (N self) = Ok cur
            /\ d <> 0
            /\ (n * cur) mod d = 0
            /\ (forall j n' d', (j < k)%nat ->
                                nth_error fs j = Some (n', d') ->
                                (n' * cur) mod d' <> 0)
            /\ self' = append_transition (i + k)
                         (append_N (n * cur / d) self))
    \/ (r = Ok tt
        /\ self' = append_N 0 self
        /\ forall cur n d,
            last_entry (N self) = Ok cur -> In (n, d) fs ->
            (n * cur) mod d <> 0).
Proof.
  induction fs as [|[n d] fs IH]; intros i self r self' Hrun.
  - right. right. injection Hrun as <- <-.
    split; [reflexivity|]. split; [reflexivity|]. intros cur n d _ [].
  - cbn [run_step_from] in Hrun. revert Hrun. run_method.
    destruct (last_entry (N self)) as [cur| |] eqn:Hlast;
      try (intros [= <- <-]; left; split; [discriminate | reflexivity]).
    unfold py_mod, py_floordiv. destruct (d =? 0) eqn:Hd;
      try (intros [= <- <-]; left; split; [discriminate | reflexivity]).
    apply Z.eqb_neq in Hd.
    destruct ((n * cur) mod d =? 0) eqn:Hmod.
    + apply Z.eqb_eq in Hmod.
      destruct (if verbose >? 0 then f_int.factorize (n * cur / d)
                else Ok Dict.empty) as [shown| |];
        try (intros [= <- <-]; left; split; [discriminate | reflexivity]).
      intros [= <- <-]. right. left. split; [reflexivity|].
      exists 0%nat, n, d, cur. split; [reflexivity|].
      split; [reflexivity|]. split; [exact Hd|]. split; [exact Hmod|].
      split; [intros j n' d' Hj; inversion Hj|].
      rewrite Nat.add_0_r. reflexivity.
    + apply Z.eqb_neq in Hmod. intros Hrun.
      destruct (IH (S i) self r self' Hrun)
        as [Hraise | [(Hr & k & n' & d' & cur' & Hnth & Hlast' & Hd' & Hmod'
                         & Hfirst & Hself)
                     | (Hr & Hself & Hnone)]].
      * left. exact Hraise.
      * right. left. split; [exact Hr|].
        rewrite Hlast in Hlast'. injection Hlast' as <-.
        exists (S k), n', d', cur. split; [exact Hnth|].
        split; [reflexivity|]. split; [exact Hd'|]. split; [exact Hmod'|].
        split.
        -- intros [|j] n'' d'' Hj Hnth''.
           ++ injection Hnth'' as <- <-. exact Hmod.
           ++ apply (Hfirst j); [lia | exact Hnth''].
        -- rewrite <- plus_n_Sm. exact Hself.
      * right. right. split; [exact Hr|]. split; [exact Hself|].
        intros cur' n' d' [= <-] [Heq|Hin].
        -- injection Heq as <- <-. exact Hmod.
        -- apply (Hnone cur n' d' Hlast Hin).
Qed.

Lemma run_step_cases (verbose : Z) (self : t) (r : result unit) (self' : t) :
  run_step verbose self = (r, self') ->
  (r <> Ok tt /\ self' = self)
  \/ (r = Ok tt
      /\ exists k n d cur,
          nth_error (f self) k = Some (n, d)
          /\ last_entry (N self) = Ok cur
          /\ d <> 0
          /\ (n * cur) mod d = 0
          /\ (forall j n' d', (j < k)%nat ->
                              nth_error (f self) j = Some (n', d') ->
                              (n' * cur) mod d' <> 0)
          /\ self' = append_transition k (append_N (n * cur / d) self))
  \/ (r = Ok tt
      /\ self' = append_N 0 self
      /\ forall cur n d,
          last_entry (N self) = Ok cur -> In (n, d) (f self) ->
          (n * cur) mod d <> 0).
Proof.
  unfold run_step. run_method. apply run_step_from_cases.
Qed.

(** ** The order of the factors *)

Lemma keys_set_None (i v : Z) (d : Dict.t) :
  Dict.get i d = None -> Dict.keys (Dict.set i v d) = Dict.keys d ++ [i].
Proof.
  induction d as [|[k c] d IH]; simpl; intros Hget; [reflexivity|].
  destruct (k =? i); [discriminate|]. simpl. f_equal. apply IH, Hget.
Qed.

Lemma keys_set_Some (i c v : Z) (d : Dict.t) :
  Dict.get i d = Some c -> Dict.keys (Dict.set i v d) = Dict.keys d.
Proof.
  induction d as [|[k c'] d IH]; simpl; intros Hget; [discriminate|].
  destruct (k =? i); [reflexivity|]. simpl. f_equal. apply IH, Hget.
Qed.

Lemma get_None_not_key (i : Z) (d : Dict.t) :
  Dict.get i d = None -> ~ In i (Dict.keys d).
Proof.
  induction d as [|[k c] d IH]; simpl; intros Hget; [intros []|].
  destruct (k =? i) eqn:E; [discriminate|]. apply Z.eqb_neq in E.
  intros [H|H]; [exact (E H) | exact (IH Hget H)].
Qed.

Lemma StronglySorted_snoc (l : list Z) (x : Z) :
  StronglySorted Z.lt l -> Forall (fun k => k < x) l ->
  StronglySorted Z.lt (l ++ [x]).
Proof.
  induction l as [|y l IH]; simpl; intros Hs Hl.
  - constructor; constructor.
  - inversion Hs as [|? ? Hs' Hy]; subst.
    inversion Hl as [|? ? Hyx Hl']; subst.
    constructor; [apply IH; assumption|].
    apply Forall_app. split; [exact Hy | constructor; [exact Hyx | constructor]].
Qed.

Lemma count_factor_ascending (i : Z) (d : Dict.t) :
  ascending d -> Forall (fun k => k <= i) (Dict.keys d) ->
  ascending (f_int.count_factor i d)
  /\ Forall (fun k => k <= i) (Dict.keys (f_int.count_factor i d)).
Proof.
  unfold ascending, f_int.count_factor. intros Hs Hle.
  destruct (Dict.get i d) as [c|] eqn:Hget.
  - rewrite (keys_set_Some i c) by exact Hget. split; assumption.
  - rewrite keys_set_None by exact Hget. split.
    + apply StronglySorted_snoc; [exact Hs|].
      apply get_None_not_key in Hget. rewrite Forall_forall in *.
      intros k Hk. specialize (Hle k Hk).
      assert (k <> i) by (intros ->; exact (Hget Hk)). lia.
    + apply Forall_app. split; [exact Hle | constructor; [lia | constructor]].
Qed.

Lemma divide_out_ascending (fuel : nat) :
  forall i factors a factors' a',
    f_int.divide_out fuel i factors a = Ok (factors', a') ->
    ascending factors -> Forall (fun k => k <= i) (Dict.keys factors) ->
    ascending factors' /\ Forall (fun k => k <= i) (Dict.keys factors').
Proof.
  induction fuel as [|fuel IH]; intros i factors a factors' a';
    cbn [f_int.divide_out]; unfold py_mod, py_floordiv;
    destruct (i =? 0); cbn [rbind]; try discriminate;
    destruct (a mod i =? 0); cbn [negb]; try discriminate.
  - intros [= <- <-] Hs Hle. split; assumption.
  - intros Hrun Hs Hle.
    destruct (count_factor_ascending i factors Hs Hle) as [Hs' Hle'].
    apply (IH _ _ _ _ _ Hrun Hs' Hle').
  - intros [= <- <-] Hs Hle. split; assumption.
Qed.

Lemma trial_division_ascending (k : nat) :
  forall lo hi factors a factors' a',
    Z.to_nat (hi - lo) = k ->
    f_int.trial_division (f_int.range lo hi) factors a = Ok (factors', a') ->
    ascending factors -> Forall (fun k => k < lo) (Dict.keys factors) ->
    ascending factors'
    /\ Forall (fun k => k < Z.max lo hi) (Dict.keys factors').
Proof.
  induction k as [|k IH]; intros lo hi factors a factors' a' Hk.
  - rewrite range_nil by lia. intros [= <- <-] Hs Hlt.
    replace (Z.max lo hi) with lo by lia. split; assumption.
  - rewrite range_cons by lia. cbn [f_int.trial_division].
    destruct (f_int.divide_out (f_int.divide_fuel a) lo factors a)
      as [[factors1 a1]| |] eqn:Hdiv; cbn [rbind]; try discriminate.
    intros Hrun Hs Hlt.
    destruct (divide_out_ascending _ _ _ _ _ _ Hdiv Hs) as [Hs1 Hle1].
    { eapply Forall_impl; [|exact Hlt]. simpl. intros; lia. }
    replace (Z.max lo hi) with (Z.max (lo + 1) hi) by lia.
    apply (IH (lo + 1) hi factors1 a1 factors' a'); [lia | exact Hrun | exact Hs1 |].
    eapply Forall_impl; [|exact Hle1]. simpl. intros; lia.
Qed.

Lemma factorize_ascending (n : Z) (d : Dict.t) :
  f_int.factorize n = Ok d -> ascending d.
Proof.
  intros Hrun. pose proof (factorize_Ok_nonneg n d Hrun) as Hnn.
  destruct (Z_le_gt_dec 2 n) as [Hn|Hsmall].
  2:{ assert (H0 : f_int.factorize 0 = Ok Dict.empty) by reflexivity.
      assert (H1 : f_int.factorize 1 = Ok Dict.empty) by reflexivity.
      assert (Hcases : n = 0 \/ n = 1) by lia.
      destruct Hcases as [-> | ->];
        [rewrite H0 in Hrun | rewrite H1 in Hrun];
        injection Hrun as <-; constructor. }
  destruct (int_sqrt_outcome n) as [[_ [b Hb]] | [[Hneg _] | Hover]];
    [|lia|unfold f_int.factorize in Hrun; rewrite Hover in Hrun;
          discriminate].
  revert Hrun. unfold f_int.factorize. rewrite Hb. cbn [rbind].
  destruct (trial_division_spec (Z.to_nat (b + 1 - 2)) n 2
              (b + 1) Dict.empty n)
    as (factors & a & Hrun & Hs); [reflexivity | lia | |].
  { constructor.
    - lia.
    - change (1 * n = n). lia.
    - constructor.
    - constructor.
    - intros j Hj. lia. }
  rewrite Hrun. cbn [rbind].
  destruct (trial_division_ascending _ _ _ _ _ _ _ eq_refl Hrun)
    as [Hasc Hlt]; [constructor | constructor |].
  destruct (a >? 1) eqn:Hgt; intros [= <-]; [|exact Hasc].
  apply Z.gtb_lt in Hgt.
  apply count_factor_ascending; [exact Hasc|].
  assert (Ha : Z.max 2 (b + 1) <= a).
  { destruct (Z_lt_le_dec a (Z.max 2 (b + 1))) as [Hlow|]; [|assumption].
    exfalso. apply (sieved_rest Hs a); [lia | apply Z.divide_refl]. }
  eapply Forall_impl; [|exact Hlt]. simpl. intros; lia.
Qed.

(** X1.  The factors come out in ascending order: whenever [factorize]
    returns, the keys of the mapping, in iteration order, increase
    strictly (so [f_int.__repr__] lists the primes from the smallest to
    the largest). *)
Theorem factorize_keys_ascending (n : Z) (d : Dict.t) :
  f_int.factorize n = Ok d -> StronglySorted Z.lt (Dict.keys d).
Proof.
  apply factorize_ascending.
Qed.

Lemma factorize_keys_ascending_witness :
  f_int.factorize 360 = Ok [(2, 3); (3, 2); (5, 1)]
  /\ StronglySorted Z.lt (Dict.keys [(2, 3); (3, 2); (5, 1)]).
Proof.
  assert (H : f_int.factorize 360 = Ok [(2, 3); (3, 2); (5, 1)])
    by reflexivity.
  split; [exact H | exact (factorize_keys_ascending 360 _ H)].
Defined.

(** ** Exact multiplicities *)

Lemma product_split (d : Dict.t) (p e : Z) :
  Forall (fun kv => Z.prime (fst kv) /\ 1 <= snd kv) d ->
  NoDup (Dict.keys d) ->
  In (p, e) d ->
  exists rest, f_int.product d = p ^ e * rest /\ ~ (p | rest).
Proof.
  induction d as [|[q c] d IH]; simpl; intros Hd Hnd Hin; [contradiction|].
  inversion Hd as [|? ? [Hq Hc] Htl]; subst. simpl in Hq, Hc.
  inversion Hnd as [|? ? Hnot Hnd']; subst.
  destruct Hin as [[= -> ->]|Hin].
  - exists (f_int.product d). split; [reflexivity|].
    intros Hdiv. apply Hnot.
    apply prime_divisor_is_key; assumption.
  - destruct (IH Htl Hnd' Hin) as (rest & Hprod & Hrest).
    assert (Hp : Z.prime p).
    { rewrite Forall_forall in Htl. apply (Htl (p, e) Hin). }
    exists (q ^ c * rest). split; [rewrite Hprod; ring|].
    intros Hdiv. apply Z.divide_prime_mul in Hdiv; [|exact Hp].
    destruct Hdiv as [Hdiv|Hdiv]; [|exact (Hrest Hdiv)].
    apply Hnot. replace q with p.
    + apply (in_map fst) in Hin. exact Hin.
    + apply (Z.divide_prime_pp p q c); try assumption. lia.
Qed.

Lemma power_exact (p e rest : Z) :
  Z.prime p -> 0 <= e -> ~ (p | rest) -> ~ (p ^ (e + 1) | p ^ e * rest).
Proof.
  intros [Hp _] He Hrest Hdiv. apply Hrest.
  rewrite Z.pow_add_r, Z.pow_1_r in Hdiv by lia.
  apply Z.mul_divide_cancel_l in Hdiv; [exact Hdiv|].
  apply Z.pow_nonzero; lia.
Qed.

Lemma power_divides_power (p e e' : Z) :
  0 <= e <= e' -> (p ^ e | p ^ e').
Proof.
  intros He. exists (p ^ (e' - e)).
  rewrite <- Z.pow_add_r by lia. f_equal. lia.
Qed.

Lemma entry_exact (d : Dict.t) (p e : Z) :
  Forall (fun kv => Z.prime (fst kv) /\ 1 <= snd kv) d ->
  NoDup (Dict.keys d) ->
  In (p, e) d ->
  Z.prime p /\ 1 <= e
  /\ (p ^ e | f_int.product d) /\ ~ (p ^ (e + 1) | f_int.product d).
Proof.
  intros Hd Hnd Hin.
  assert (Hpe : Z.prime p /\ 1 <= e).
  { rewrite Forall_forall in Hd. apply (Hd (p, e) Hin). }
  destruct Hpe as [Hp He].
  destruct (product_split d p e Hd Hnd Hin) as (rest & Hprod & Hrest).
  split; [exact Hp|]. split; [exact He|]. rewrite Hprod. split.
  - apply Z.divide_mul_l, Z.divide_refl.
  - apply power_exact; [exact Hp | lia | exact Hrest].
Qed.

Lemma entries_exact (d : Dict.t) :
  Forall (fun kv => Z.prime (fst kv) /\ 1 <= snd kv) d ->
  NoDup (Dict.keys d) ->
  forall p e,
    In (p, e) d
    <-> Z.prime p /\ 1 <= e
        /\ (p ^ e | f_int.product d) /\ ~ (p ^ (e + 1) | f_int.product d).
Proof.
  intros Hd Hnd p e. split; [apply entry_exact; assumption|].
  intros (Hp & He & Hdiv & Hnot).
  assert (Hkey : In p (Dict.keys d)).
  { apply prime_divisor_is_key; [exact Hd | exact Hp |].
    eapply Z.divide_trans; [|exact Hdiv].
    apply Z.divide_pow_same_r. lia. }
  unfold Dict.keys in Hkey. apply in_map_iff in Hkey.
  destruct Hkey as ([p' e'] & Hfst & Hin). simpl in Hfst. subst p'.
  destruct (entry_exact d p e' Hd Hnd Hin) as (_ & He' & Hdiv' & Hnot').
  assert (e = e'); [|subst e'; exact Hin].
  destruct (Z.lt_trichotomy e e') as [Hlt|[Heq|Hgt]]; [|exact Heq|].
  - exfalso. apply Hnot.
    eapply Z.divide_trans; [|exact Hdiv']. apply power_divides_power. lia.
  - exfalso. apply Hnot'.
    eapply Z.divide_trans; [|exact Hdiv]. apply power_divides_power. lia.
Qed.

(** X2.  The exponents are the multiplicities: for a positive [n] below
    [2^52], where the float root of line 13 is the integer root, the
    pair [(p, e)] is an item of [factorize(n)] exactly when [p] is a prime,
    [e >= 1], [p^e] divides [n] and [p^(e+1)] does not. *)
Theorem factorize_exact_multiplicity (n : Z) (d : Dict.t) :
  1 <= n < 2 ^ 52 ->
  f_int.factorize n = Ok d ->
  forall p e,
    In (p, e) d
    <-> Z.prime p /\ 1 <= e /\ (p ^ e | n) /\ ~ (p ^ (e + 1) | n).
Proof.
  intros Hn Hrun.
  destruct (factorize_total n ltac:(lia)) as (d' & Hrun' & Hprod & Hd & Hnd & _).
  rewrite Hrun in Hrun'. injection Hrun' as <-.
  intros p e. rewrite <- (Hprod (proj1 Hn)). apply entries_exact; assumption.
Qed.

Lemma factorize_exact_multiplicity_witness :
  1 <= 360 < 2 ^ 52
  /\ f_int.factorize 360 = Ok [(2, 3); (3, 2); (5, 1)]
  /\ forall p e,
      In (p, e) [(2, 3); (3, 2); (5, 1)]
      <-> Z.prime p /\ 1 <= e /\ (p ^ e | 360) /\ ~ (p ^ (e + 1) | 360).
Proof.
  assert (Hn : 1 <= 360 < 2 ^ 52) by (split; [lia | reflexivity]).
  assert (H : f_int.factorize 360 = Ok [(2, 3); (3, 2); (5, 1)])
    by reflexivity.
  split; [exact Hn|]. split; [exact H|].
  exact (factorize_exact_multiplicity 360 _ Hn H).
Defined.

(** ** From a canonical dictionary back to itself *)

Lemma ascending_NoDup (l : list Z) : StronglySorted Z.lt l -> NoDup l.
Proof.
  induction 1 as [|x l Hs IH Hx]; constructor; [|exact IH].
  intros Hin. rewrite Forall_forall in Hx. specialize (Hx x Hin). lia.
Qed.

Lemma ascending_same_entries (d : Dict.t) :
  forall d',
    ascending d -> ascending d' ->
    (forall kv, In kv d <-> In kv d') ->
    d = d'.
Proof.
  unfold ascending.
  induction d as [|[k v] d IH]; intros [|[k' v'] d'] Hs Hs' Hsame.
  - reflexivity.
  - exfalso. apply (proj2 (Hsame (k', v'))). left. reflexivity.
  - exfalso. apply (proj1 (Hsame (k, v))). left. reflexivity.
  - simpl in Hs, Hs'.
    inversion Hs as [|? ? Hsd Hk]; subst.
    inversion Hs' as [|? ? Hsd' Hk']; subst.
    rewrite Forall_forall in Hk, Hk'.
    assert (Hhead : (k, v) = (k', v')).
    { destruct (proj1 (Hsame (k, v)) (or_introl eq_refl)) as [Heq|Hin];
        [symmetry; exact Heq|].
      destruct (proj2 (Hsame (k', v')) (or_introl eq_refl)) as [Heq|Hin'];
        [exact Heq|].
      apply (in_map fst) in Hin, Hin'. simpl in Hin, Hin'.
      specialize (Hk' k Hin). specialize (Hk k' Hin'). lia. }
    injection Hhead as <- <-. f_equal.
    apply IH; [exact Hsd | exact Hsd' |].
    intros [x y]. split; intros Hin.
    + destruct (proj1 (Hsame (x, y)) (or_intror Hin)) as [Heq|Hin'];
        [|exact Hin'].
      injection Heq as <- <-. apply (in_map fst) in Hin. simpl in Hin.
      specialize (Hk k Hin). lia.
    + destruct (proj2 (Hsame (x, y)) (or_intror Hin)) as [Heq|Hin'];
        [|exact Hin'].
      injection Heq as <- <-. apply (in_map fst) in Hin. simpl in Hin.
      specialize (Hk' k Hin). lia.
Qed.

Lemma product_pos (d : Dict.t) :
  Forall (fun kv => Z.prime (fst kv) /\ 1 <= snd kv) d -> 1 <= f_int.product d.
Proof.
  induction 1 as [|[p e] d [[Hp _] He] _ IH]; simpl in *; [lia|].
  assert (0 < p ^ e) by (apply Z.pow_pos_nonneg; lia). nia.
Qed.

(** X3.  [factorize] undoes the product: a dictionary of ascending prime
    keys with positive exponents, whose product is below [2^52], is what
    [factorize] returns on the product it stands for.  With the round trip
    from [n], this makes the canonical dictionaries of product below
    [2^52] and the positive integers below [2^52] correspond one to one. *)
Theorem factorize_product_canonical (d : Dict.t) :
  canonical d -> f_int.product d < 2 ^ 52 ->
  f_int.factorize (f_int.product d) = Ok d.
Proof.
  intros [Hasc Hd] Hbound.
  pose proof (product_pos d Hd) as Hpos.
  destruct (factorize_total (f_int.product d) ltac:(lia))
    as (d' & Hrun & Hprod & Hd' & Hnd' & _).
  rewrite Hrun. f_equal.
  apply ascending_same_entries.
  - apply (factorize_ascending _ _ Hrun).
  - exact Hasc.
  - intros [p e].
    rewrite (entries_exact d Hd (ascending_NoDup _ Hasc)).
    rewrite (entries_exact d' Hd' Hnd'). rewrite (Hprod Hpos). reflexivity.
Qed.

Lemma factorize_product_canonical_witness :
  canonical [(2, 3); (3, 2); (5, 1)]
  /\ f_int.product [(2, 3); (3, 2); (5, 1)] < 2 ^ 52
  /\ f_int.factorize (f_int.product [(2, 3); (3, 2); (5, 1)])
     = Ok [(2, 3); (3, 2); (5, 1)].
Proof.
  assert (Hc : canonical [(2, 3); (3, 2); (5, 1)]).
  { split.
    - unfold ascending. cbn. repeat constructor.
    - destruct (factorize_total 360 ltac:(split; [lia | reflexivity]))
        as (d & Hrun & _ & Hd & _).
      rewrite factorize_360 in Hrun. injection Hrun as <-. exact Hd. }
  assert (Hb : f_int.product [(2, 3); (3, 2); (5, 1)] < 2 ^ 52)
    by reflexivity.
  split; [exact Hc|]. split; [exact Hb|].
  exact (factorize_product_canonical _ Hc Hb).
Defined.

(** ** What a step does when it fails, and on a halted game *)

Lemma last_entry_Raise (l : list Z) (e : exn) :
  last_entry l = Raise e -> e = IndexError /\ l = [].
Proof.
  induction l as [|x l IH]; cbn [last_entry].
  - intros [= <-]. split; reflexivity.
  - destruct l as [|y l]; [discriminate|]. intros H.
    destruct (IH H) as [_ Hnil]. discriminate.
Qed.

Lemma last_entry_fuel (l : list Z) : last_entry l <> OutOfFuel.
Proof.
  induction l as [|x l IH]; cbn [last_entry]; [discriminate|].
  destruct l as [|y l]; [discriminate | exact IH].
Qed.

Lemma run_step_from_failure (verbose : Z) (fs : list (Z * Z)) :
  forall (i : nat) (self : t) (r : result unit) (self' : t),
    run_step_from verbose i fs self = (r, self') ->
    r <> Ok tt ->
    (r = Raise IndexError /\ N self = [])
    \/ (r = Raise ZeroDivisionError /\ Exists (fun fr => snd fr = 0) fs)
    \/ ((r = Raise TypeError \/ r = Raise OverflowError)
        /\ 0 < verbose
        /\ exists cur, last_entry (N self) = Ok cur).
Proof.
  induction fs as [|[n d] fs IH]; intros i self r self'.
  - intros [= <- <-] Hr. contradiction Hr. reflexivity.
  - cbn [run_step_from]. run_method.
    destruct (last_entry (N self)) as [cur|e|] eqn:Hlast.
    + unfold py_mod, py_floordiv. destruct (d =? 0) eqn:Hd.
      * intros [= <- <-] _. right. left. split; [reflexivity|].
        left. apply Z.eqb_eq in Hd. exact Hd.
      * destruct ((n * cur) mod d =? 0).
        -- destruct (verbose >? 0) eqn:Hv.
           ++ destruct (factorize_outcome (n * cur / d))
                as [[shown ->] | [-> | ->]].
              ** intros [= <- <-] Hr. contradiction Hr. reflexivity.
              ** intros [= <- <-] _. right. right.
                 split; [left; reflexivity|].
                 split; [apply Z.gtb_lt; exact Hv|].
                 exists cur. reflexivity.
              ** intros [= <- <-] _. right. right.
                 split; [right; reflexivity|].
                 split; [apply Z.gtb_lt; exact Hv|].
                 exists cur. reflexivity.
           ++ intros [= <- <-] Hr. contradiction Hr. reflexivity.
        -- intros Hrun Hr.
           destruct (IH (S i) self r self' Hrun Hr) as [H | [[H1 H2] | H]].
           ++ left. exact H.
           ++ right. left. split; [exact H1 | right; exact H2].
           ++ right. right. destruct H as (He & Hv & _).
              split; [exact He|]. split; [exact Hv|].
              exists cur. reflexivity.
    + intros [= <- <-] _. left.
      destruct (last_entry_Raise _ _ Hlast) as [-> Hnil].
      split; [reflexivity | exact Hnil].
    + contradiction (last_entry_fuel _ Hlast).
Qed.

(** The display of a negative state, and of a state beyond the range of
    binary64. *)
Example run_step_display_negative :
  run_step 1 (mk [(-1, 1)] [3] [] [])
  = (Raise TypeError, mk [(-1, 1)] [3] [] []).
Proof. reflexivity. Qed.

Example run_step_display_beyond_float :
  run_step 1 (mk [(2, 1)] [2 ^ 1023] [] [(2, 0)])
  = (Raise OverflowError, mk [(2, 1)] [2 ^ 1023] [] [(2, 0)]).
Proof. vm_compute. reflexivity. Qed.

(** X4.  A step that does not return normally leaves the game exactly as
    it was, and there are three ways for it to fail: [IndexError] on an
    empty trace, [ZeroDivisionError] on a program with a zero
    denominator, and an exception from the display at [verbose > 0],
    which happens only when the program is not valid or the state is not
    displayable (a negative state raises [TypeError], a state that does
    not fit a float raises [OverflowError]).  A silent step fails in the
    first two ways only. *)
Theorem run_step_failure (verbose : Z) (self : t) (r : result unit)
        (self' : t) :
  run_step verbose self = (r, self') ->
  r <> Ok tt ->
  self' = self
  /\ ((r = Raise IndexError /\ N self = [])
      \/ (r = Raise ZeroDivisionError
          /\ Exists (fun fr => snd fr = 0) (f self))
      \/ (0 < verbose
          /\ (exists e, r = Raise e)
          /\ exists cur,
              last_entry (N self) = Ok cur
              /\ ~ (valid_program (f self)
                    /\ displayable verbose cur (f self)))).
Proof.
  intros Hrun Hr. split.
  - destruct (run_step_cases _ _ _ _ Hrun)
      as [[_ Hself] | [[Hok _] | [Hok _]]];
      [exact Hself | contradiction | contradiction].
  - pose proof Hrun as Hfrom. revert Hfrom. unfold run_step. run_method.
    intros Hfrom.
    destruct (run_step_from_failure verbose (f self) 0 self r self' Hfrom Hr)
      as [H | [H | (He & Hv & cur & Hlast)]];
      [left; exact H | right; left; exact H |].
    right. right. split; [exact Hv|]. split.
    + destruct He as [-> | ->]; eexists; reflexivity.
    + exists cur. split; [exact Hlast|]. intros [Hvalid Hshow].
      destruct (run_step_next verbose cur self Hvalid Hlast Hshow)
        as (shown & next & Hnext & _).
      rewrite Hnext in Hrun. injection Hrun as <- _. contradiction Hr.
      reflexivity.
Qed.

Lemma run_step_failure_witness :
  run_step 0 zero_game = (Raise ZeroDivisionError, zero_game)
  /\ Raise ZeroDivisionError <> Ok tt
  /\ zero_game = zero_game
  /\ ((@Raise unit ZeroDivisionError = Raise IndexError /\ N zero_game = [])
      \/ (@Raise unit ZeroDivisionError = Raise ZeroDivisionError
          /\ Exists (fun fr => snd fr = 0) (f zero_game))
      \/ (0 < 0
          /\ (exists e, @Raise unit ZeroDivisionError = Raise e)
          /\ exists cur,
              last_entry (N zero_game) = Ok cur
              /\ ~ (valid_program (f zero_game)
                    /\ displayable 0 cur (f zero_game)))).
Proof.
  assert (Hrun : run_step 0 zero_game = (Raise ZeroDivisionError, zero_game))
    by reflexivity.
  assert (Hr : @Raise unit ZeroDivisionError <> Ok tt) by discriminate.
  split; [exact Hrun|]. split; [exact Hr|].
  exact (run_step_failure 0 zero_game _ _ Hrun Hr).
Defined.

(** X5.  [run_step] does not look at whether the game has halted.  On a
    trace that ends in 0 and a program whose first denominator is not 0,
    the first fraction applies: another 0 is appended and transition 0 is
    recorded.  On an empty program 0 is appended, even to an empty
    trace. *)
Theorem run_step_after_halt (verbose : Z) (self : t) :
  (forall n d rest,
      f self = (n, d) :: rest -> d <> 0 ->
      last_entry (N self) = Ok 0 ->
      run_step verbose self
      = (Ok tt, append_transition 0 (append_N 0 self)))
  /\ (f self = [] -> run_step verbose self = (Ok tt, append_N 0 self)).
Proof.
  split.
  - intros n d rest Hf Hd Hlast. unfold run_step. run_method. rewrite Hf.
    cbn [run_step_from]. run_method. rewrite Hlast.
    unfold py_mod, py_floordiv.
    replace (d =? 0) with false by (symmetry; apply Z.eqb_neq; exact Hd).
    rewrite Z.mul_0_r, Zmod_0_l, Zdiv_0_l. cbn [Z.eqb].
    destruct (verbose >? 0); reflexivity.
  - intros Hf. unfold run_step. run_method. rewrite Hf. reflexivity.
Qed.

Lemma run_step_after_halt_witness :
  f halted_game = (1, 2) :: []
  /\ 2 <> 0
  /\ last_entry (N halted_game) = Ok 0
  /\ run_step 0 halted_game
     = (Ok tt, append_transition 0 (append_N 0 halted_game)).
Proof.
  assert (Hf : f halted_game = (1, 2) :: []) by reflexivity.
  assert (Hd : 2 <> 0) by lia.
  assert (Hlast : last_entry (N halted_game) = Ok 0) by reflexivity.
  split; [exact Hf|]. split; [exact Hd|]. split; [exact Hlast|].
  exact (proj1 (run_step_after_halt 0 halted_game) 1 2 [] Hf Hd Hlast).
Defined.

(** ** Invariants of the loop of [run] *)

Section LoopInvariant.

Variable P : t -> Prop.
Variables verbose max_steps : Z.

Hypothesis P_step :
  forall self self' cur,
    P self -> last_entry (N self) = Ok cur -> cur <> 0 ->
    run_step verbose self = (Ok tt, self') -> P self'.

Hypothesis P_cap : forall self, P self -> P (append_N 0 self).

Lemma run_loop_invariant (fuel : nat) :
  forall self r self',
    run_loop fuel verbose max_steps self = (r, self') -> P self -> P self'.
Proof.
  induction fuel as [|fuel IH]; intros self r self'; cbn [run_loop];
    run_method.
  - destruct (last_entry (N self)) as [cur| |];
      try (intros [= <- <-] H; exact H).
    destruct (cur =? 0); intros [= <- <-] H; exact H.
  - destruct (last_entry (N self)) as [cur| |] eqn:Hlast;
      try (intros [= <- <-] H; exact H).
    destruct (cur =? 0) eqn:Hcur; [intros [= <- <-] H; exact H|].
    apply Z.eqb_neq in Hcur.
    destruct (run_step verbose self) as [[[]|e|] self1] eqn:Hstep.
    + destruct (Z.of_nat (List.length (N self1)) + 1 >? max_steps);
        intros Hrun HP; cbn beta iota in Hrun; apply (IH _ _ _ Hrun).
      * apply P_cap. apply (P_step self self1 cur); assumption.
      * apply (P_step self self1 cur); assumption.
    + intros [= <- <-] HP.
      destruct (run_step_cases _ _ _ _ Hstep)
        as [[_ ->] | [[Hok _] | [Hok _]]];
        [exact HP | discriminate | discriminate].
    + intros [= <- <-] HP.
      destruct (run_step_cases _ _ _ _ Hstep)
        as [[_ ->] | [[Hok _] | [Hok _]]];
        [exact HP | discriminate | discriminate].
Qed.

Lemma run_invariant (N_0 : option Z) (self : t) :
  P (snd (run_reset N_0 self)) -> P (snd (run N_0 verbose max_steps self)).
Proof.
  unfold run. run_method.
  assert (Hreset : exists self0, run_reset N_0 self = (Ok tt, self0)).
  { unfold run_reset. destruct N_0 as [n0|];
      [destruct (n0 =? 0)|]; eexists; reflexivity. }
  destruct Hreset as [self0 Hreset]. rewrite Hreset. cbn [snd].
  intros HP.
  destruct (run_loop (run_fuel max_steps (N self0)) verbose max_steps self0)
    as [r self'] eqn:Hrun.
  cbn [snd]. apply (run_loop_invariant _ _ _ _ Hrun HP).
Qed.

End LoopInvariant.

(** *** The program, the registers and the older transitions *)

Lemma run_step_frame (verbose : Z) (self : t) (r : result unit) (self' : t) :
  run_step verbose self = (r, self') ->
  f self' = f self
  /\ registers self' = registers self
  /\ exists more,
      transitions self' = transitions self ++ more
      /\ Forall (fun i => (i < List.length (f self))%nat) more.
Proof.
  intros Hrun.
  destruct (run_step_cases _ _ _ _ Hrun)
    as [[_ ->]
       | [(_ & k & n & d & cur & Hnth & _ & _ & _ & _ & ->) | (_ & -> & _)]].
  - split; [reflexivity|]. split; [reflexivity|].
    exists []. split; [rewrite app_nil_r; reflexivity | constructor].
  - split; [reflexivity|]. split; [reflexivity|].
    exists [k]. split; [reflexivity|].
    constructor; [|constructor]. apply nth_error_Some. rewrite Hnth.
    discriminate.
  - split; [reflexivity|]. split; [reflexivity|].
    exists []. split; [rewrite app_nil_r; reflexivity | constructor].
Qed.

(** X6.  Whatever its arguments and its outcome, [run] leaves the program
    and the registers alone and never drops or rewrites a recorded
    transition: it only appends indices of fractions of the program. *)
Theorem run_frame (N_0 : option Z) (verbose max_steps : Z) (self : t) :
  f (snd (run N_0 verbose max_steps self)) = f self
  /\ registers (snd (run N_0 verbose max_steps self)) = registers self
  /\ exists more,
      transitions (snd (run N_0 verbose max_steps self))
      = transitions self ++ more
      /\ Forall (fun i => (i < List.length (f self))%nat) more.
Proof.
  apply (run_invariant
           (fun s => f s = f self
                     /\ registers s = registers self
                     /\ exists more,
                         transitions s = transitions self ++ more
                         /\ Forall (fun i => (i < List.length (f self))%nat)
                                   more)).
  - intros s s' cur (Hf & Hr & more & Hts & Hmore) _ _ Hstep.
    destruct (run_step_frame _ _ _ _ Hstep)
      as (Hf' & Hr' & more' & Hts' & Hmore').
    split; [congruence|]. split; [congruence|].
    exists (more ++ more'). split.
    + rewrite Hts', Hts, app_assoc. reflexivity.
    + apply Forall_app. split; [exact Hmore|]. rewrite <- Hf. exact Hmore'.
  - intros s H. exact H.
  - assert (Hreset : f (snd (run_reset N_0 self)) = f self
                     /\ registers (snd (run_reset N_0 self)) = registers self
                     /\ transitions (snd (run_reset N_0 self))
                        = transitions self).
    { unfold run_reset. destruct N_0 as [n0|];
        [destruct (n0 =? 0)|]; repeat split; reflexivity. }
    destruct Hreset as (Hf & Hr & Hts).
    split; [exact Hf|]. split; [exact Hr|].
    exists []. split; [rewrite app_nil_r; exact Hts | constructor].
Qed.

(** *** The transitions tell how the trace was made *)

Lemma nth_error_prefix {A : Type} (l more : list A) (k : nat) (x : A) :
  nth_error l k = Some x -> nth_error (l ++ more) k = Some x.
Proof.
  intros H. rewrite nth_error_app1; [exact H|].
  apply nth_error_Some. rewrite H. discriminate.
Qed.

Lemma link_app (fs : list (Z * Z)) (trace more : list Z) (k i : nat) :
  link fs trace k i -> link fs (trace ++ more) k i.
Proof.
  intros (n & d & x & Hnth & Hk & Hd & Hmod & Hnext & Hfirst).
  exists n, d, x. split; [exact Hnth|].
  split; [apply nth_error_prefix; exact Hk|].
  split; [exact Hd|]. split; [exact Hmod|].
  split; [apply nth_error_prefix; exact Hnext | exact Hfirst].
Qed.

Lemma faithful_append_N (x : Z) (self : t) :
  faithful self -> faithful (append_N x self).
Proof.
  intros H k i Hk. apply link_app. apply (H k i Hk).
Qed.

Lemma ready_step (verbose : Z) (self self' : t) (cur : Z) :
  ready self -> last_entry (N self) = Ok cur -> cur <> 0 ->
  run_step verbose self = (Ok tt, self') -> ready self'.
Proof.
  intros [Hfaith Hshape] Hlast Hcur Hstep.
  assert (Halign : aligned self).
  { destruct Hshape as [H|H]; [exact H|].
    rewrite Hlast in H. injection H as ->. contradiction Hcur. reflexivity. }
  destruct (run_step_cases _ _ _ _ Hstep)
    as [[Hr _]
       | [(_ & k & n & d & cur' & Hnth & Hlast' & Hd & Hmod & Hfirst & ->)
         | (_ & -> & _)]].
  - contradiction Hr. reflexivity.
  - rewrite Hlast in Hlast'. injection Hlast' as <-.
    destruct (last_entry_Ok _ _ Hlast) as [front Hfront].
    unfold aligned in Halign. rewrite Hfront, length_app in Halign.
    cbn [List.length] in Halign.
    assert (Hlen : List.length front = List.length (transitions self))
      by lia.
    split.
    + intros j i Hj.
      cbn [transitions append_transition set_transitions append_N set_N]
        in Hj.
      cbn [f N transitions append_transition set_transitions append_N set_N].
      destruct (Nat.lt_ge_cases j (List.length (transitions self)))
        as [Hlt|Hge].
      * rewrite nth_error_app1 in Hj by exact Hlt.
        apply link_app. apply (Hfaith j i Hj).
      * rewrite nth_error_app2 in Hj by exact Hge.
        destruct (j - List.length (transitions self))%nat as [|j'] eqn:Hjj;
          [|destruct j'; discriminate].
        injection Hj as <-.
        assert (j = List.length front) by lia. subst j.
        exists n, d, cur. split; [exact Hnth|]. rewrite Hfront. split.
        -- rewrite <- app_assoc. rewrite nth_error_app2 by lia.
           rewrite Nat.sub_diag. reflexivity.
        -- split; [exact Hd|]. split; [exact Hmod|]. split; [|exact Hfirst].
           rewrite nth_error_app2 by (rewrite length_app; cbn; lia).
           rewrite length_app. cbn [List.length].
           replace (S (List.length front) - (List.length front + 1))%nat
             with 0%nat by lia.
           reflexivity.
    + left. unfold aligned.
      cbn [N transitions append_transition set_transitions append_N set_N].
      rewrite Hfront, !length_app. cbn [List.length]. lia.
  - split; [apply faithful_append_N; exact Hfaith|].
    right. apply last_entry_app.
Qed.

Lemma ready_cap (self : t) : ready self -> ready (append_N 0 self).
Proof.
  intros [Hfaith _]. split; [apply faithful_append_N; exact Hfaith|].
  right. apply last_entry_app.
Qed.

Lemma new_shape (args : list value) (N_0 : value) (g : t) :
  new args N_0 = Ok g ->
  exists fs n0 regs,
    args = map as_argument fs /\ N_0 = VInt n0 /\ g = mk fs [n0] [] regs
    /\ collect_registers fs Dict.empty = Ok regs.
Proof.
  unfold new.
  destruct (well_typed_or_not args N_0) as [(n0 & fs & -> & ->) | Hill].
  - rewrite init_well_typed.
    destruct (collect_registers fs Dict.empty) as [regs| |] eqn:Hregs;
      try discriminate.
    intros [= <-]. exists fs, n0, regs. split; [reflexivity|].
    split; [reflexivity|]. split; [reflexivity | exact Hregs].
  - destruct (init_ill_typed args N_0 blank Hill) as [why ->]. discriminate.
Qed.

(** X7.  The transitions tell how the trace was made.  A game as the
    constructor returns it is [ready]; and if the game is [ready] when the
    loop of [run] starts, it is when [run] ends, whatever the outcome:
    each recorded transition [i] at position [k] is the first fraction
    that applies to entry [k] of the trace, and entry [k + 1] is the
    result of applying it. *)
Theorem run_faithful :
  (forall (args : list value) (N_0 : value) (g : t),
      new args N_0 = Ok g -> ready g)
  /\ (forall (N_0 : option Z) (verbose max_steps : Z) (self : t),
         ready (snd (run_reset N_0 self)) ->
         ready (snd (run N_0 verbose max_steps self))).
Proof.
  split.
  - intros args N_0 g Hnew.
    destruct (new_shape _ _ _ Hnew) as (fs & n0 & regs & _ & _ & -> & _).
    split.
    + intros k i Hk. destruct k; discriminate.
    + left. reflexivity.
  - intros N_0 verbose max_steps self.
    apply (run_invariant ready verbose max_steps).
    + intros s s' cur. apply ready_step.
    + apply ready_cap.
Qed.

Lemma run_faithful_witness :
  new [VTuple [VInt 1; VInt 2]] (VInt 8) = Ok halving_game
  /\ ready halving_game
  /\ ready (snd (run_reset None halving_game))
  /\ ready (snd (run None 0 100 halving_game)).
Proof.
  assert (Hnew : new [VTuple [VInt 1; VInt 2]] (VInt 8) = Ok halving_game)
    by reflexivity.
  pose proof (proj1 run_faithful _ _ _ Hnew) as Hready.
  split; [exact Hnew|]. split; [exact Hready|]. split; [exact Hready|].
  exact (proj2 run_faithful None 0 100 halving_game Hready).
Defined.

(** *** When [run] returns *)

Lemma run_loop_returns (verbose max_steps : Z) (fuel : nat) :
  forall self self',
    run_loop fuel verbose max_steps self = (Ok tt, self') ->
    last_entry (N self') = Ok 0.
Proof.
  induction fuel as [|fuel IH]; intros self self'; cbn [run_loop];
    run_method.
  - destruct (last_entry (N self)) as [cur| |] eqn:Hlast; try discriminate.
    destruct (cur =? 0) eqn:Hcur; [|discriminate].
    intros [= <-]. apply Z.eqb_eq in Hcur. subst cur. exact Hlast.
  - destruct (last_entry (N self)) as [cur| |] eqn:Hlast; try discriminate.
    destruct (cur =? 0) eqn:Hcur.
    + intros [= <-]. apply Z.eqb_eq in Hcur. subst cur. exact Hlast.
    + destruct (run_step verbose self) as [[[]|e|] self1]; try discriminate.
      destruct (Z.of_nat (List.length (N self1)) + 1 >? max_steps);
        intros Hrun; cbn beta iota in Hrun; apply (IH _ _ Hrun).
Qed.

(** X8.  Whenever [run] returns normally the trace ends in 0, and a
    further [run] without a new start returns at once and changes
    nothing: running twice is running once. *)
Theorem run_returns_halted (N_0 : option Z) (verbose max_steps : Z)
        (self self' : t) :
  run N_0 verbose max_steps self = (Ok tt, self') ->
  last_entry (N self') = Ok 0
  /\ forall verbose' max_steps',
      run None verbose' max_steps' self' = (Ok tt, self').
Proof.
  unfold run at 1. run_method.
  destruct (run_reset N_0 self) as [[[]|e|] self0]; try discriminate.
  intros Hrun. pose proof (run_loop_returns _ _ _ _ _ Hrun) as Hlast.
  split; [exact Hlast|]. intros verbose' max_steps'.
  unfold run. run_method. cbn [run_reset]. run_method.
  apply run_loop_halted. exact Hlast.
Qed.

Lemma run_returns_halted_witness :
  run None 0 100 halving_game = (Ok tt, halted_game)
  /\ last_entry (N halted_game) = Ok 0
  /\ forall verbose' max_steps',
      run None verbose' max_steps' halted_game = (Ok tt, halted_game).
Proof.
  assert (Hrun : run None 0 100 halving_game = (Ok tt, halted_game))
    by reflexivity.
  split; [exact Hrun|].
  exact (run_returns_halted None 0 100 halving_game halted_game Hrun).
Defined.

(** *** States that are not negative *)

Lemma last_entry_In (l : list Z) (x : Z) : last_entry l = Ok x -> In x l.
Proof.
  intros H. destruct (last_entry_Ok _ _ H) as [front ->].
  apply in_or_app. right. left. reflexivity.
Qed.

(** X9.  On a valid program whose numerators are not negative, a trace of
    non-negative entries stays one: [run], whatever its outcome, only
    appends entries that are not negative. *)
Theorem run_nonneg (N_0 : option Z) (verbose max_steps : Z) (self : t) :
  valid_program (f self) ->
  Forall (fun fr => 0 <= fst fr) (f self) ->
  Forall (fun x => 0 <= x) (N (snd (run_reset N_0 self))) ->
  Forall (fun x => 0 <= x) (N (snd (run N_0 verbose max_steps self))).
Proof.
  intros Hvalid Hnum Hstart.
  pose (P := fun s : t => f s = f self /\ Forall (fun x => 0 <= x) (N s)).
  assert (H : P (snd (run N_0 verbose max_steps self)));
    [|exact (proj2 H)].
  apply (run_invariant P); unfold P.
  - intros s s' cur [Hf Hs] Hlast _ Hstep.
    destruct (run_step_cases _ _ _ _ Hstep)
      as [[Hr _]
         | [(_ & k & n & d & cur' & Hnth & Hlast' & _ & _ & _ & ->)
           | (_ & -> & _)]].
    + contradiction Hr. reflexivity.
    + rewrite Hlast in Hlast'. injection Hlast' as <-.
      split; [exact Hf|].
      cbn [N append_transition set_transitions append_N set_N].
      apply Forall_app. split; [exact Hs|]. constructor; [|constructor].
      rewrite Hf in Hnth. apply nth_error_In in Hnth.
      unfold valid_program in Hvalid. rewrite Forall_forall in Hvalid, Hnum, Hs.
      specialize (Hvalid _ Hnth). specialize (Hnum _ Hnth).
      specialize (Hs _ (last_entry_In _ _ Hlast)). cbn [fst snd] in *.
      apply Z.div_pos; nia.
    + split; [exact Hf|]. cbn [N append_N set_N].
      apply Forall_app. split; [exact Hs|]. constructor; [lia | constructor].
  - intros s [Hf Hs]. split; [exact Hf|]. cbn [N append_N set_N].
    apply Forall_app. split; [exact Hs|]. constructor; [lia | constructor].
  - split; [|exact Hstart].
    unfold run_reset. destruct N_0 as [n0|]; [destruct (n0 =? 0)|];
      reflexivity.
Qed.

Lemma run_nonneg_witness :
  valid_program (f primegame)
  /\ Forall (fun fr => 0 <= fst fr) (f primegame)
  /\ Forall (fun x => 0 <= x) (N (snd (run_reset None primegame)))
  /\ Forall (fun x => 0 <= x) (N (snd (run None 0 8 primegame))).
Proof.
  assert (Hvalid : valid_program (f primegame))
    by (repeat constructor).
  assert (Hnum : Forall (fun fr => 0 <= fst fr) (f primegame))
    by (repeat constructor; cbn; lia).
  assert (Hstart : Forall (fun x => 0 <= x)
                          (N (snd (run_reset None primegame))))
    by (repeat constructor; lia).
  split; [exact Hvalid|]. split; [exact Hnum|]. split; [exact Hstart|].
  exact (run_nonneg None 0 8 primegame Hvalid Hnum Hstart).
Defined.

(** *** A program that never halts by itself *)

Lemma step_with_unit_denominator (verbose cur : Z) (self : t) :
  verbose <= 0 ->
  valid_program (f self) ->
  Forall (fun fr => 0 < fst fr) (f self) ->
  Exists (fun fr => snd fr = 1) (f self) ->
  last_entry (N self) = Ok cur -> 0 < cur ->
  exists k next,
    0 < next
    /\ run_step verbose self
       = (Ok tt, append_transition k (append_N next self)).
Proof.
  intros Hquiet Hvalid Hnum Hone Hlast Hcur.
  destruct (run_step_next verbose cur self Hvalid Hlast)
    as (self' & nx & Hstep & _).
  { intros Hloud. lia. }
  destruct (run_step_cases _ _ _ _ Hstep)
    as [[Hr _]
       | [(_ & k & n & d & cur' & Hnth & Hlast' & Hd & Hmod & _ & Hself)
         | (_ & _ & Hnone)]].
  - contradiction Hr. reflexivity.
  - rewrite Hlast in Hlast'. injection Hlast' as <-.
    exists k, (n * cur / d). split; [|rewrite Hstep, Hself; reflexivity].
    apply nth_error_In in Hnth.
    unfold valid_program in Hvalid. rewrite Forall_forall in Hvalid, Hnum.
    specialize (Hvalid _ Hnth). specialize (Hnum _ Hnth). cbn [fst snd] in *.
    assert (Heq : n * cur = d * (n * cur / d))
      by (apply Z.div_exact; [lia | exact Hmod]).
    assert (Hpos : 0 < n * cur) by nia.
    destruct (Z_lt_le_dec 0 (n * cur / d)) as [H|H]; [exact H | nia].
  - exfalso. apply Exists_exists in Hone.
    destruct Hone as ([n d] & Hin & Hd). cbn [snd] in Hd. subst d.
    apply (Hnone cur n 1 Hlast Hin). apply Z.mod_1_r.
Qed.

Lemma run_loop_budget (verbose max_steps : Z) (fuel : nat) :
  verbose <= 0 ->
  forall (self : t) (cur : Z),
    valid_program (f self) ->
    Forall (fun fr => 0 < fst fr) (f self) ->
    Exists (fun fr => snd fr = 1) (f self) ->
    last_entry (N self) = Ok cur -> 0 < cur ->
    (Z.to_nat (max_steps - Z.of_nat (List.length (N self))) < fuel)%nat ->
    exists self' steps more,
      run_loop fuel verbose max_steps self = (Ok tt, self')
      /\ N self' = N self ++ steps ++ [0]
      /\ Forall (fun x => 0 < x) steps
      /\ Z.of_nat (List.length steps)
         = Z.max 1 (max_steps - Z.of_nat (List.length (N self)))
      /\ transitions self' = transitions self ++ more
      /\ List.length more = List.length steps.
Proof.
  intros Hquiet. induction fuel as [|fuel IH];
    intros self cur Hvalid Hnum Hone Hlast Hcur Hfuel; [lia|].
  cbn [run_loop]. run_method. rewrite Hlast.
  replace (cur =? 0) with false by (symmetry; apply Z.eqb_neq; lia).
  destruct (step_with_unit_denominator verbose cur self Hquiet Hvalid Hnum Hone
              Hlast Hcur) as (k & next & Hnext & Hstep).
  rewrite Hstep. cbn beta iota.
  set (self1 := append_transition k (append_N next self)).
  assert (HN1 : N self1 = N self ++ [next]) by reflexivity.
  assert (HT1 : transitions self1 = transitions self ++ [k]) by reflexivity.
  assert (Hf1 : f self1 = f self) by reflexivity.
  assert (Hlen1 : List.length (N self1) = S (List.length (N self)))
    by (rewrite HN1, length_app; cbn; lia).
  clearbody self1.
  destruct (Z.of_nat (List.length (N self1)) + 1 >? max_steps) eqn:Hcap;
    cbn beta iota.
  - rewrite run_loop_halted by apply last_entry_app.
    rewrite Z.gtb_ltb in Hcap. apply Z.ltb_lt in Hcap.
    exists (append_N 0 self1), [next], [k]. split; [reflexivity|].
    split; [cbn [N append_N set_N]; rewrite HN1, <- app_assoc; reflexivity|].
    split; [constructor; [exact Hnext | constructor]|].
    split; [cbn [List.length]; lia|].
    split; [exact HT1 | reflexivity].
  - rewrite Z.gtb_ltb in Hcap. apply Z.ltb_ge in Hcap.
    destruct (IH self1 next)
      as (self' & steps & more & Hrun & HN' & Hpos & Hlen & HT' & Hmore).
    + rewrite Hf1. exact Hvalid.
    + rewrite Hf1. exact Hnum.
    + rewrite Hf1. exact Hone.
    + rewrite HN1. apply last_entry_app.
    + exact Hnext.
    + lia.
    + exists self', (next :: steps), (k :: more). split; [exact Hrun|].
      split; [rewrite HN', HN1, <- app_assoc; reflexivity|].
      split; [constructor; assumption|].
      split; [cbn [List.length]; lia|].
      split; [rewrite HT', HT1, <- app_assoc; reflexivity|].
      cbn [List.length]. lia.
Qed.

(** X10.  A program with a fraction of denominator 1 and positive
    numerators never halts by itself on a positive state: every round of
    a silent [run] ([verbose <= 0], so that nothing is factorized for
    display) records a transition and a positive state, and [run] returns
    exactly when the budget is reached, with the one final 0 that the
    budget check appends.  The trace then has
    [max (len + 2) (max_steps + 1)] entries, [len] being its length at the
    start. *)
Theorem run_budget_exact (verbose max_steps cur : Z) (self : t) :
  verbose <= 0 ->
  valid_program (f self) ->
  Forall (fun fr => 0 < fst fr) (f self) ->
  Exists (fun fr => snd fr = 1) (f self) ->
  last_entry (N self) = Ok cur -> 0 < cur ->
  exists self' steps more,
    run None verbose max_steps self = (Ok tt, self')
    /\ N self' = N self ++ steps ++ [0]
    /\ Forall (fun x => 0 < x) steps
    /\ transitions self' = transitions self ++ more
    /\ List.length more = List.length steps
    /\ Z.of_nat (List.length (N self'))
       = Z.max (Z.of_nat (List.length (N self)) + 2) (max_steps + 1).
Proof.
  intros Hquiet Hvalid Hnum Hone Hlast Hcur.
  destruct (run_loop_budget verbose max_steps (run_fuel max_steps (N self))
              Hquiet self cur Hvalid Hnum Hone Hlast Hcur)
    as (self' & steps & more & Hrun & HN' & Hpos & Hlen & HT' & Hmore).
  { unfold run_fuel. lia. }
  exists self', steps, more.
  split; [unfold run; run_method; cbn [run_reset]; run_method; exact Hrun|].
  split; [exact HN'|]. split; [exact Hpos|]. split; [exact HT'|].
  split; [exact Hmore|].
  rewrite HN', !length_app. cbn [List.length]. lia.
Qed.

Lemma run_budget_exact_witness :
  0 <= 0
  /\ valid_program (f primegame)
  /\ Forall (fun fr => 0 < fst fr) (f primegame)
  /\ Exists (fun fr => snd fr = 1) (f primegame)
  /\ last_entry (N primegame) = Ok 2
  /\ 0 < 2
  /\ exists self' steps more,
      run None 0 8 primegame = (Ok tt, self')
      /\ N self' = N primegame ++ steps ++ [0]
      /\ Forall (fun x => 0 < x) steps
      /\ transitions self' = transitions primegame ++ more
      /\ List.length more = List.length steps
      /\ Z.of_nat (List.length (N self'))
         = Z.max (Z.of_nat (List.length (N primegame)) + 2) (8 + 1).
Proof.
  assert (Hvalid : valid_program (f primegame)) by (repeat constructor).
  assert (Hnum : Forall (fun fr => 0 < fst fr) (f primegame))
    by (repeat constructor).
  assert (Hone : Exists (fun fr => snd fr = 1) (f primegame))
    by (apply Exists_exists; exists (55, 1); split;
        [cbn; tauto | reflexivity]).
  assert (Hlast : last_entry (N primegame) = Ok 2) by reflexivity.
  assert (Hcur : 0 < 2) by lia.
  assert (Hquiet : 0 <= 0) by lia.
  split; [exact Hquiet|].
  split; [exact Hvalid|]. split; [exact Hnum|]. split; [exact Hone|].
  split; [exact Hlast|]. split; [exact Hcur|].
  exact (run_budget_exact 0 8 2 primegame Hquiet Hvalid Hnum Hone Hlast
           Hcur).
Defined.

(** ** Construction from integers *)

(** The outcome of [factorize] by the sign of its argument. *)
Lemma factorize_sign (n : Z) :
  (0 <= n /\ exists d, f_int.factorize n = Ok d)
  \/ (n < 0 /\ f_int.factorize n = Raise TypeError)
  \/ f_int.factorize n = Raise OverflowError.
Proof.
  destruct (int_sqrt_outcome n) as [[Hn [b Hb]] | [[Hn H] | H]].
  - left. split; [exact Hn|].
    destruct (Z.eq_dec n 0) as [->|Hne]; [exists Dict.empty; reflexivity|].
    destruct (factorize_with_bound n b ltac:(lia) Hb) as (d & Hrun & _).
    exists d. exact Hrun.
  - right. left. split; [exact Hn|].
    unfold f_int.factorize. rewrite H. reflexivity.
  - right. right. unfold f_int.factorize. rewrite H. reflexivity.
Qed.

Lemma factorize_in_range (n : Z) :
  - 2 ^ 52 < n < 2 ^ 52 -> f_int.factorize n <> Raise OverflowError.
Proof.
  intros Hn. destruct (Z_lt_le_dec n 0) as [Hneg|Hnn].
  - rewrite factorize_negative by lia. discriminate.
  - destruct (factorize_total n ltac:(lia)) as (d & -> & _). discriminate.
Qed.

Lemma collect_registers_sign (fs : list (Z * Z)) :
  forall regs,
    (Forall (fun fr => 0 <= fst fr /\ 0 <= snd fr) fs
     /\ exists regs', collect_registers fs regs = Ok regs')
    \/ (Exists (fun fr => fst fr < 0 \/ snd fr < 0) fs
        /\ collect_registers fs regs = Raise TypeError)
    \/ collect_registers fs regs = Raise OverflowError.
Proof.
  induction fs as [|[n d] fs IH]; intros regs.
  - left. split; [constructor | eexists; reflexivity].
  - cbn [collect_registers].
    destruct (factorize_sign n) as [[Hn [numerator ->]] | [[Hn ->] | ->]];
      [|right; left; split; [left; left; exact Hn | reflexivity]
       |right; right; reflexivity].
    cbn [rbind].
    destruct (factorize_sign d) as [[Hd [denominator ->]] | [[Hd ->] | ->]];
      [|right; left; split; [left; right; exact Hd | reflexivity]
       |right; right; reflexivity].
    cbn [rbind].
    destruct (IH (zero_all denominator (zero_all numerator regs)))
      as [[Hall [regs' Hregs]] | [[Hex Hregs] | Hregs]].
    + left. split; [|exists regs'; exact Hregs].
      constructor; [split; assumption | exact Hall].
    + right. left. split; [right; exact Hex | exact Hregs].
    + right. right. exact Hregs.
Qed.

Lemma collect_registers_in_range (fs : list (Z * Z)) :
  Forall (fun fr => - 2 ^ 52 < fst fr < 2 ^ 52
                    /\ - 2 ^ 52 < snd fr < 2 ^ 52) fs ->
  forall regs, collect_registers fs regs <> Raise OverflowError.
Proof.
  induction fs as [|[n d] fs IH]; intros Hfs regs; cbn [collect_registers].
  - discriminate.
  - inversion Hfs as [|? ? [Hn Hd] Hfs']; subst. cbn [fst snd] in Hn, Hd.
    pose proof (factorize_in_range n Hn) as Hnum.
    pose proof (factorize_in_range d Hd) as Hden.
    destruct (f_int.factorize n) as [numerator|e|];
      [|destruct e; (discriminate || (contradiction Hnum; reflexivity))
       |discriminate].
    cbn [rbind].
    destruct (f_int.factorize d) as [denominator|e|];
      [|destruct e; (discriminate || (contradiction Hden; reflexivity))
       |discriminate].
    cbn [rbind]. apply IH, Hfs'.
Qed.

(** X11.  Construction from integers: the constructor checks types, not
    signs.  With an integer start and pairs of integers there are three
    outcomes.  It returns the game whose program is the fractions, whose
    trace is the start value alone and whose transitions are empty, and
    then no numerator and no denominator is negative; or one of them is
    negative and [get_registers] raises [TypeError], not the
    [RuntimeError] of a configuration error; or one of them does not fit
    a float and [get_registers] raises [OverflowError], which does not
    happen when all of them are between [-2^52] and [2^52].  The start
    value can be any integer, 0 and the negative ones included. *)
Theorem new_outcome (fs : list (Z * Z)) (n0 : Z) :
  ((Forall (fun fr => 0 <= fst fr /\ 0 <= snd fr) fs
    /\ exists regs,
        new (map as_argument fs) (VInt n0) = Ok (mk fs [n0] [] regs)
        /\ get_registers (mk fs [n0] [] regs) = (Ok regs, mk fs [n0] [] regs))
   \/ (Exists (fun fr => fst fr < 0 \/ snd fr < 0) fs
       /\ new (map as_argument fs) (VInt n0) = Raise TypeError)
   \/ new (map as_argument fs) (VInt n0) = Raise OverflowError)
  /\ (Forall (fun fr => - 2 ^ 52 < fst fr < 2 ^ 52
                        /\ - 2 ^ 52 < snd fr < 2 ^ 52) fs ->
      new (map as_argument fs) (VInt n0) <> Raise OverflowError).
Proof.
  unfold new. rewrite init_well_typed. split.
  - destruct (collect_registers_sign fs Dict.empty)
      as [[Hall [regs Hregs]] | [[Hex Hregs] | Hregs]]; rewrite Hregs.
    + left. split; [exact Hall|]. exists regs. split; [reflexivity|].
      unfold get_registers. run_method. cbn [f]. rewrite Hregs. reflexivity.
    + right. left. split; [exact Hex | reflexivity].
    + right. right. reflexivity.
  - intros Hfs. pose proof (collect_registers_in_range fs Hfs Dict.empty) as H.
    destruct (collect_registers fs Dict.empty) as [regs|e|];
      [discriminate
      |destruct e; (discriminate || (contradiction H; reflexivity))
      |discriminate].
Qed.

Lemma new_outcome_witness :
  Forall (fun fr => - 2 ^ 52 < fst fr < 2 ^ 52 /\ - 2 ^ 52 < snd fr < 2 ^ 52)
         [(3, 2); (-1, 3)]
  /\ new (map as_argument [(3, 2); (-1, 3)]) (VInt 2) <> Raise OverflowError.
Proof.
  assert (Hfs : Forall (fun fr => - 2 ^ 52 < fst fr < 2 ^ 52
                                  /\ - 2 ^ 52 < snd fr < 2 ^ 52)
                       [(3, 2); (-1, 3)])
    by (repeat (apply Forall_cons || apply Forall_nil); in_range).
  split; [exact Hfs|]. exact (proj2 (new_outcome [(3, 2); (-1, 3)] 2) Hfs).
Defined.

Example new_negative_numerator :
  new (map as_argument [(3, 2); (-1, 3)]) (VInt 2) = Raise TypeError.
Proof. reflexivity. Qed.

Example new_beyond_float :
  new (map as_argument [(2 ^ 1024, 1)]) (VInt 2) = Raise OverflowError.
Proof. vm_compute. reflexivity. Qed.

(** ** Display *)

Lemma concat_nonempty (sep x : string) (l : list string) :
  x <> EmptyString -> String.concat sep (x :: l) <> EmptyString.
Proof.
  intros Hx. destruct l as [|y l]; cbn [String.concat]; [exact Hx|].
  destruct x as [|c x]; [contradiction Hx; reflexivity|].
  cbn. discriminate.
Qed.

Lemma factor_text_nonempty (kv : Z * Z) :
  (str (fst kv) ++ "^" ++ str (snd kv))%string <> EmptyString.
Proof.
  destruct (str (fst kv)); cbn; discriminate.
Qed.

(** X12.  Whenever [f_int(n)] is made, [n] is not negative, the object
    holds [n] and its factors, and it displays as the empty text exactly
    for 0 and 1: every integer from 2 on has a display that is not
    empty.  It is made from every [n] of [0, 2^52), and it is not from
    the negative integers above [-2^52], which raise [TypeError]. *)
Theorem f_int_repr_empty (n : Z) :
  (forall self,
      f_int_object.__init__ n = Ok self ->
      0 <= n
      /\ f_int_object.n self = n
      /\ f_int.factorize n = Ok (f_int_object.factors self)
      /\ (f_int_object.__repr__ self = EmptyString <-> n <= 1))
  /\ (0 <= n < 2 ^ 52 -> exists self, f_int_object.__init__ n = Ok self)
  /\ (- 2 ^ 52 < n < 0 -> f_int_object.__init__ n = Raise TypeError).
Proof.
  unfold f_int_object.__init__. split; [|split].
  - intros self.
    destruct (f_int.factorize n) as [d|e|] eqn:Hrun;
      [|discriminate|discriminate].
    cbn [rbind]. intros [= <-].
    destruct (factorize_returns n d Hrun) as (_ & _ & _ & Hempty).
    split; [exact (factorize_Ok_nonneg n d Hrun)|].
    split; [reflexivity|]. split; [reflexivity|].
    unfold f_int_object.__repr__, join. cbn [f_int_object.factors].
    rewrite <- Hempty. split.
    + destruct d as [|kv d]; [reflexivity|]. cbn [map]. intros H.
      exfalso. revert H. apply concat_nonempty, factor_text_nonempty.
    + intros ->. reflexivity.
  - intros Hn. destruct (factorize_total n Hn) as (d & -> & _).
    eexists. reflexivity.
  - intros Hn. rewrite factorize_negative by exact Hn. reflexivity.
Qed.

Lemma f_int_repr_empty_witness :
  0 <= 360 < 2 ^ 52
  /\ exists self, f_int_object.__init__ 360 = Ok self.
Proof.
  assert (Hn : 0 <= 360 < 2 ^ 52) by (split; [lia | reflexivity]).
  split; [exact Hn|]. exact (proj1 (proj2 (f_int_repr_empty 360)) Hn).
Defined.

Example f_int_repr_360 :
  rbind (f_int_object.__init__ 360) (fun self => Ok (f_int_object.__repr__ self))
  = Ok "2^3 * 3^2 * 5^1"%string.
Proof. reflexivity. Qed.

Lemma chr_Ok (n : Z) : 0 <= n <= 1114111 -> exists s, chr n = Ok s.
Proof.
  intros Hn. unfold chr.
  replace (n <? 0) with false by (symmetry; apply Z.ltb_ge; lia).
  replace (1114111 <? n) with false by (symmetry; apply Z.ltb_ge; lia).
  cbn [orb].
  destruct (n <? 128); [eexists; reflexivity|].
  destruct (n <? 2048); [eexists; reflexivity|].
  destruct (n <? 65536); eexists; reflexivity.
Qed.

Lemma history_entry_outcome (self : t) (i : nat) (N_i : Z) :
  transitions_in_range self ->
  Z.of_nat (List.length (f self)) <= 1114047 ->
  - 2 ^ 52 < N_i < 2 ^ 52 ->
  (0 <= N_i -> exists s, FractionGame_display.history_entry self i N_i = Ok s)
  /\ (N_i < 0 ->
      FractionGame_display.history_entry self i N_i = Raise TypeError).
Proof.
  intros Hrange Hsmall Hbound.
  assert (Hshown :
            (0 <= N_i -> exists shown, f_int_object.__init__ N_i = Ok shown)
            /\ (N_i < 0 -> f_int_object.__init__ N_i = Raise TypeError)).
  { unfold f_int_object.__init__. split; intros Hn.
    - destruct (factorize_total N_i ltac:(lia)) as (d & -> & _).
      eexists. reflexivity.
    - rewrite factorize_negative by lia. reflexivity. }
  destruct Hshown as [Hpos Hneg].
  unfold FractionGame_display.history_entry.
  destruct (i <? List.length (transitions self))%nat eqn:Hi.
  - apply Nat.ltb_lt in Hi. unfold FractionGame_display.item.
    destruct (nth_error (transitions self) i) as [transition|] eqn:Hnth.
    2:{ apply nth_error_None in Hnth. lia. }
    cbn [rbind].
    assert (Hlt : (transition < List.length (f self))%nat).
    { unfold transitions_in_range in Hrange. rewrite Forall_forall in Hrange.
      apply Hrange. eapply nth_error_In. exact Hnth. }
    destruct (nth_error (f self) transition) as [fraction|] eqn:Hfr.
    2:{ apply nth_error_None in Hfr. lia. }
    cbn [rbind].
    destruct (chr_Ok (Z.of_nat transition + 65)) as [letter Hletter]; [lia|].
    split; intros Hn.
    + destruct (Hpos Hn) as [shown ->]. cbn [rbind]. rewrite Hletter.
      cbn [rbind]. eexists. reflexivity.
    + rewrite (Hneg Hn). reflexivity.
  - split; intros Hn.
    + destruct (Hpos Hn) as [shown ->]. cbn [rbind]. eexists. reflexivity.
    + rewrite (Hneg Hn). reflexivity.
Qed.

Lemma history_from_outcome (self : t) :
  transitions_in_range self ->
  Z.of_nat (List.length (f self)) <= 1114047 ->
  forall trace i,
    Forall (fun x => - 2 ^ 52 < x < 2 ^ 52) trace ->
    (Forall (fun x => 0 <= x) trace ->
     exists history,
       FractionGame_display.history_from self i trace = Ok history
       /\ List.length history = List.length trace)
    /\ (Exists (fun x => x < 0) trace ->
        FractionGame_display.history_from self i trace = Raise TypeError).
Proof.
  intros Hrange Hsmall.
  induction trace as [|N_i trace IH]; intros i Hbound.
  - split; [intros _; exists []; split; reflexivity|].
    intros H. inversion H.
  - cbn [FractionGame_display.history_from].
    inversion Hbound as [|? ? Hhere Hrest]; subst.
    destruct (history_entry_outcome self i N_i Hrange Hsmall Hhere)
      as [Hpos Hneg].
    destruct (IH (S i) Hrest) as [IHpos IHneg].
    split.
    + intros Hall. inversion Hall as [|? ? Hhead Htail]; subst.
      destruct (Hpos Hhead) as [entry ->]. cbn [rbind].
      destruct (IHpos Htail) as (entries & -> & Hlen). cbn [rbind].
      eexists. split; [reflexivity|]. cbn [List.length]. rewrite Hlen.
      reflexivity.
    + intros Hex. destruct (Z_lt_le_dec N_i 0) as [Hn|Hn].
      * rewrite (Hneg Hn). reflexivity.
      * destruct (Hpos Hn) as [entry ->]. cbn [rbind].
        inversion Hex as [? ? Hhead|? ? Htail]; subst; [lia|].
        rewrite (IHneg Htail). reflexivity.
Qed.

(** X13.  The display of a game of small integers whose transitions are
    indices of its program (of at most 1114047 fractions, the labels
    being characters): with the components of the fractions and the
    entries of the trace between [-2^52] and [2^52], where the float root
    of the factorizer is exact, [__repr__] returns a text when no entry of
    the trace is negative, and raises [TypeError] when one is. *)
Theorem repr_outcome (self : t) :
  transitions_in_range self ->
  Z.of_nat (List.length (f self)) <= 1114047 ->
  Forall (fun fr => - 2 ^ 52 < fst fr < 2 ^ 52
                    /\ - 2 ^ 52 < snd fr < 2 ^ 52) (f self) ->
  Forall (fun x => - 2 ^ 52 < x < 2 ^ 52) (N self) ->
  (Forall (fun x => 0 <= x) (N self) ->
   exists text, FractionGame_display.__repr__ self = Ok text)
  /\ (Exists (fun x => x < 0) (N self) ->
      FractionGame_display.__repr__ self = Raise TypeError).
Proof.
  intros Hrange Hsmall _ Hbound. unfold FractionGame_display.__repr__.
  destruct (history_from_outcome self Hrange Hsmall (N self) 0 Hbound)
    as [Hpos Hneg].
  split.
  - intros Hall. destruct (Hpos Hall) as (history & -> & _).
    cbn [rbind]. eexists. reflexivity.
  - intros Hex. rewrite (Hneg Hex). reflexivity.
Qed.

Example halted_game_repr :
  FractionGame_display.__repr__ halted_game
  = Ok ("2^3" ++ newline ++ "*1/2 (A)" ++ newline
        ++ "2^2" ++ newline ++ "*1/2 (A)" ++ newline
        ++ "2^1" ++ newline ++ "*1/2 (A)" ++ newline
        ++ newline)%string.
Proof. reflexivity. Qed.

Example repr_beyond_float :
  FractionGame_display.__repr__ (mk [] [2 ^ 1024] [] Dict.empty)
  = Raise OverflowError.
Proof. vm_compute. reflexivity. Qed.

Lemma repr_outcome_witness :
  transitions_in_range halted_game
  /\ Z.of_nat (List.length (f halted_game)) <= 1114047
  /\ Forall (fun fr => - 2 ^ 52 < fst fr < 2 ^ 52
                       /\ - 2 ^ 52 < snd fr < 2 ^ 52) (f halted_game)
  /\ Forall (fun x => - 2 ^ 52 < x < 2 ^ 52) (N halted_game)
  /\ Forall (fun x => 0 <= x) (N halted_game)
  /\ exists text, FractionGame_display.__repr__ halted_game = Ok text.
Proof.
  assert (Hrange : transitions_in_range halted_game)
    by (repeat constructor).
  assert (Hsmall : Z.of_nat (List.length (f halted_game)) <= 1114047)
    by (cbn; lia).
  assert (Hprog : Forall (fun fr => - 2 ^ 52 < fst fr < 2 ^ 52
                                   /\ - 2 ^ 52 < snd fr < 2 ^ 52)
                         (f halted_game))
    by (repeat (apply Forall_cons || apply Forall_nil); in_range).
  assert (Hbound : Forall (fun x => - 2 ^ 52 < x < 2 ^ 52) (N halted_game))
    by (repeat (apply Forall_cons || apply Forall_nil); in_range).
  assert (Hall : Forall (fun x => 0 <= x) (N halted_game))
    by (repeat constructor; lia).
  split; [exact Hrange|]. split; [exact Hsmall|]. split; [exact Hprog|].
  split; [exact Hbound|]. split; [exact Hall|].
  exact (proj1 (repr_outcome halted_game Hrange Hsmall Hprog Hbound) Hall).
Defined.

(** X14.  A negative start value (above [-2^52], with a program of
    components in [0, 2^52)) passes the constructor, and shows later: on
    the game so made, [__repr__] raises [TypeError], and so does
    [python_equivalent], which then leaves the game as it was. *)
Theorem negative_start (fs : list (Z * Z)) (n0 max_steps : Z) :
  - 2 ^ 52 < n0 < 0 ->
  Forall (fun fr => 0 <= fst fr < 2 ^ 52 /\ 0 <= snd fr < 2 ^ 52) fs ->
  exists g,
    new (map as_argument fs) (VInt n0) = Ok g
    /\ FractionGame_display.__repr__ g = Raise TypeError
    /\ python_equivalent max_steps g = (Raise TypeError, g).
Proof.
  intros Hn Hall. unfold new. rewrite init_well_typed.
  destruct (collect_registers_total fs Hall Dict.empty) as [regs ->].
  eexists. split; [reflexivity|]. split.
  - unfold FractionGame_display.__repr__.
    cbn [N FractionGame_display.history_from].
    unfold FractionGame_display.history_entry. cbn [transitions List.length].
    cbn [Nat.ltb Nat.leb]. unfold f_int_object.__init__.
    rewrite factorize_negative by exact Hn. reflexivity.
  - unfold python_equivalent, python_program. run_method.
    cbn [N first_entry]. rewrite factorize_negative by exact Hn.
    reflexivity.
Qed.

Lemma negative_start_witness :
  - 2 ^ 52 < -6 < 0
  /\ Forall (fun fr => 0 <= fst fr < 2 ^ 52 /\ 0 <= snd fr < 2 ^ 52) [(1, 2)]
  /\ exists g,
      new (map as_argument [(1, 2)]) (VInt (-6)) = Ok g
      /\ FractionGame_display.__repr__ g = Raise TypeError
      /\ python_equivalent 100 g = (Raise TypeError, g).
Proof.
  assert (Hn : - 2 ^ 52 < -6 < 0) by (split; [reflexivity | lia]).
  assert (Hall : Forall (fun fr => 0 <= fst fr < 2 ^ 52
                                   /\ 0 <= snd fr < 2 ^ 52) [(1, 2)])
    by (repeat (apply Forall_cons || apply Forall_nil); in_range).
  split; [exact Hn|]. split; [exact Hall|].
  exact (negative_start [(1, 2)] (-6) 100 Hn Hall).
Defined.

(** ** The synthesizer and the registers of the game *)

Lemma get_set_same (k v : Z) (d : Dict.t) :
  Dict.get k (Dict.set k v d) = Some v.
Proof.
  induction d as [|[k' v'] d IH]; cbn [Dict.set Dict.get].
  - rewrite Z.eqb_refl. reflexivity.
  - destruct (k' =? k) eqn:E; cbn [Dict.get]; rewrite E;
      [reflexivity | exact IH].
Qed.

Lemma get_set_other (k k' v : Z) (d : Dict.t) :
  k <> k' -> Dict.get k (Dict.set k' v d) = Dict.get k d.
Proof.
  intros Hne. induction d as [|[k2 v2] d IH]; cbn [Dict.set Dict.get].
  - replace (k' =? k) with false
      by (symmetry; apply Z.eqb_neq; intros ->; contradiction Hne; reflexivity).
    reflexivity.
  - destruct (k2 =? k') eqn:E; cbn [Dict.get].
    + apply Z.eqb_eq in E. subst k2.
      replace (k' =? k) with false
        by (symmetry; apply Z.eqb_neq; intros ->; contradiction Hne;
            reflexivity).
      reflexivity.
    + destruct (k2 =? k); [reflexivity | exact IH].
Qed.

Lemma set_same (k v : Z) (d : Dict.t) :
  Dict.get k d = Some v -> Dict.set k v d = d.
Proof.
  induction d as [|[k' v'] d IH]; cbn [Dict.set Dict.get]; [discriminate|].
  destruct (k' =? k).
  - intros [= ->]. reflexivity.
  - intros H. rewrite (IH H). reflexivity.
Qed.

Lemma not_key_get_None (k : Z) (d : Dict.t) :
  ~ In k (Dict.keys d) -> Dict.get k d = None.
Proof.
  induction d as [|[k' v'] d IH]; cbn [Dict.get Dict.keys map fst];
    intros Hnot; [reflexivity|].
  destruct (k' =? k) eqn:E.
  - apply Z.eqb_eq in E. contradiction Hnot. left. exact E.
  - apply IH. intros Hin. apply Hnot. right. exact Hin.
Qed.

Lemma In_get (k v : Z) (d : Dict.t) :
  NoDup (Dict.keys d) -> In (k, v) d -> Dict.get k d = Some v.
Proof.
  induction d as [|[k' v'] d IH]; cbn [Dict.get Dict.keys map fst];
    intros Hnd Hin; [contradiction|].
  inversion Hnd as [|? ? Hnot Hnd']; subst.
  destruct Hin as [[= -> ->]|Hin].
  - rewrite Z.eqb_refl. reflexivity.
  - destruct (k' =? k) eqn:E; [|apply IH; assumption].
    apply Z.eqb_eq in E. subst k'. contradiction Hnot.
    apply (in_map fst) in Hin. exact Hin.
Qed.

Lemma get_overlay (d : Dict.t) :
  forall regs k,
    NoDup (Dict.keys d) ->
    Dict.get k (overlay d regs)
    = match Dict.get k d with
      | Some e => Some e
      | None => Dict.get k regs
      end.
Proof.
  unfold overlay.
  induction d as [|[k' v'] d IH]; intros regs k Hnd; [reflexivity|].
  cbn [Dict.keys map fst] in Hnd.
  inversion Hnd as [|? ? Hnot Hnd']; subst.
  cbn [fold_left fst snd Dict.get]. rewrite IH by exact Hnd'.
  destruct (k' =? k) eqn:E.
  - apply Z.eqb_eq in E. subst k'.
    rewrite (not_key_get_None k d Hnot). apply get_set_same.
  - destruct (Dict.get k d); [reflexivity|].
    apply get_set_other. apply Z.eqb_neq in E. intros ->.
    contradiction E. reflexivity.
Qed.

Lemma overlay_fixed (d : Dict.t) :
  forall regs,
    (forall k e, In (k, e) d -> Dict.get k regs = Some e) ->
    overlay d regs = regs.
Proof.
  unfold overlay.
  induction d as [|[k v] d IH]; intros regs Hall; [reflexivity|].
  cbn [fold_left fst snd].
  rewrite set_same by (apply Hall; left; reflexivity).
  apply IH. intros k' e Hin. apply Hall. right. exact Hin.
Qed.

Lemma overlay_twice (d regs : Dict.t) :
  NoDup (Dict.keys d) -> overlay d (overlay d regs) = overlay d regs.
Proof.
  intros Hnd. apply overlay_fixed. intros k e Hin.
  rewrite get_overlay by exact Hnd. rewrite (In_get k e d Hnd Hin).
  reflexivity.
Qed.

Lemma factorize_NoDup (n : Z) (d : Dict.t) :
  f_int.factorize n = Ok d -> NoDup (Dict.keys d).
Proof.
  intros H. apply ascending_NoDup. apply (factorize_ascending n d H).
Qed.

Lemma python_equivalent_state (max_steps : Z) (self : t) (n0 : Z)
      (rest : list Z) (factors : Dict.t) :
  N self = n0 :: rest ->
  f_int.factorize n0 = Ok factors ->
  snd (python_equivalent max_steps self)
  = set_registers (overlay factors (registers self)) self.
Proof.
  intros HN Hfact.
  unfold python_equivalent, python_program. run_method.
  rewrite HN. cbn [first_entry]. rewrite Hfact.
  destruct (chain_lines 0
              (f (set_registers (overlay factors (registers self)) self))
              None) as [[lines final]| |]; [|reflexivity|reflexivity].
  cbn [snd]. destruct (closing_lines final); reflexivity.
Qed.

(** X15.  [python_equivalent] writes into the registers of the game: the
    factors of the first entry of the trace are stored over
    [self.registers], which is not copied.  Whatever the outcome, the
    program, the trace and the transitions are as before; and once the
    first entry has been factorized, every prime of it holds its exponent
    in [self.registers], the other registers being as they were, even when
    the method raises later on. *)
Theorem python_equivalent_registers (max_steps : Z) (self : t) :
  (f (snd (python_equivalent max_steps self)) = f self
   /\ N (snd (python_equivalent max_steps self)) = N self
   /\ transitions (snd (python_equivalent max_steps self))
      = transitions self)
  /\ forall n0 rest factors,
      N self = n0 :: rest ->
      f_int.factorize n0 = Ok factors ->
      snd (python_equivalent max_steps self)
      = set_registers (overlay factors (registers self)) self
      /\ forall k,
          Dict.get k (registers (snd (python_equivalent max_steps self)))
          = match Dict.get k factors with
            | Some e => Some e
            | None => Dict.get k (registers self)
            end.
Proof.
  split.
  - assert (Hstate :
              snd (python_equivalent max_steps self) = self
              \/ exists regs,
                  snd (python_equivalent max_steps self)
                  = set_registers regs self).
    { unfold python_equivalent, python_program. run_method.
      destruct (first_entry (N self)) as [n0| |];
        [|left; reflexivity|left; reflexivity].
      destruct (f_int.factorize n0) as [factors| |];
        [|left; reflexivity|left; reflexivity].
      right. exists (overlay factors (registers self)).
      destruct (chain_lines 0
                  (f (set_registers (overlay factors (registers self)) self))
                  None) as [[lines final]| |]; [|reflexivity|reflexivity].
      cbn [snd]. destruct (closing_lines final); reflexivity. }
    destruct Hstate as [-> | [regs ->]]; repeat split; reflexivity.
  - intros n0 rest factors HN Hfact.
    pose proof (python_equivalent_state max_steps self n0 rest factors
                  HN Hfact) as Hset.
    split; [exact Hset|]. intros k. rewrite Hset.
    cbn [registers set_registers].
    apply get_overlay. apply (factorize_NoDup n0 factors Hfact).
Qed.

Lemma python_equivalent_registers_witness :
  N else_in_the_middle = 2 :: []
  /\ f_int.factorize 2 = Ok [(2, 1)]
  /\ snd (python_equivalent 100 else_in_the_middle)
     = set_registers (overlay [(2, 1)] (registers else_in_the_middle))
                     else_in_the_middle
  /\ forall k,
      Dict.get k (registers (snd (python_equivalent 100 else_in_the_middle)))
      = match Dict.get k [(2, 1)] with
        | Some e => Some e
        | None => Dict.get k (registers else_in_the_middle)
        end.
Proof.
  assert (HN : N else_in_the_middle = 2 :: []) by reflexivity.
  assert (Hfact : f_int.factorize 2 = Ok [(2, 1)]) by reflexivity.
  split; [exact HN|]. split; [exact Hfact|].
  exact (proj2 (python_equivalent_registers 100 else_in_the_middle)
               2 [] [(2, 1)] HN Hfact).
Defined.

(** X16.  On a game without fractions, which the constructor makes when it
    is given a start value only, [python_equivalent] raises
    [UnboundLocalError] when the start value is in [0, 2^52), where the
    factorizer returns, and the registers hold small integers: [endloop]
    is assigned in the loop over the fractions only.  By then the factors
    of the start value have been written into the registers. *)
Theorem python_equivalent_empty_program (max_steps n0 : Z) (rest : list Z)
        (self : t) :
  f self = [] ->
  N self = n0 :: rest ->
  0 <= n0 < 2 ^ 52 ->
  Forall (fun kv => - 2 ^ 52 < fst kv < 2 ^ 52
                    /\ - 2 ^ 52 < snd kv < 2 ^ 52) (registers self) ->
  exists factors,
    f_int.factorize n0 = Ok factors
    /\ python_equivalent max_steps self
       = (Raise UnboundLocalError,
          set_registers (overlay factors (registers self)) self).
Proof.
  intros Hf HN Hn0 _.
  destruct (factorize_total n0 Hn0) as (factors & Hfact & _).
  exists factors. split; [exact Hfact|].
  unfold python_equivalent, python_program. run_method.
  rewrite HN. cbn [first_entry]. rewrite Hfact.
  cbn [f set_registers]. rewrite Hf. reflexivity.
Qed.

Lemma python_equivalent_empty_program_witness :
  new [] (VInt 6) = Ok (mk [] [6] [] [])
  /\ f (mk [] [6] [] []) = []
  /\ N (mk [] [6] [] []) = 6 :: []
  /\ 0 <= 6 < 2 ^ 52
  /\ Forall (fun kv => - 2 ^ 52 < fst kv < 2 ^ 52
                       /\ - 2 ^ 52 < snd kv < 2 ^ 52)
            (registers (mk [] [6] [] []))
  /\ exists factors,
      f_int.factorize 6 = Ok factors
      /\ python_equivalent 100 (mk [] [6] [] [])
         = (Raise UnboundLocalError,
            set_registers (overlay factors (registers (mk [] [6] [] [])))
                          (mk [] [6] [] [])).
Proof.
  assert (Hf : f (mk [] [6] [] []) = []) by reflexivity.
  assert (HN : N (mk [] [6] [] []) = 6 :: []) by reflexivity.
  assert (Hn0 : 0 <= 6 < 2 ^ 52) by (split; [lia | reflexivity]).
  assert (Hregs : Forall (fun kv => - 2 ^ 52 < fst kv < 2 ^ 52
                                   /\ - 2 ^ 52 < snd kv < 2 ^ 52)
                         (registers (mk [] [6] [] [])))
    by constructor.
  split; [reflexivity|]. split; [exact Hf|]. split; [exact HN|].
  split; [exact Hn0|]. split; [exact Hregs|].
  exact (python_equivalent_empty_program 100 6 [] (mk [] [6] [] []) Hf HN Hn0
           Hregs).
Defined.

(** X17.  Calling [python_equivalent] again gives the same text, or
    raises the same exception, and leaves the game as the first call left
    it: the registers are written once. *)
Theorem python_equivalent_idempotent (max_steps : Z) (self : t) :
  python_equivalent max_steps (snd (python_equivalent max_steps self))
  = python_equivalent max_steps self.
Proof.
  destruct (first_entry (N self)) as [n0|e|] eqn:Hfirst.
  - destruct (f_int.factorize n0) as [factors|e|] eqn:Hfact.
    + assert (HN : exists rest, N self = n0 :: rest).
      { destruct (N self) as [|x rest]; [discriminate|].
        injection Hfirst as ->. exists rest. reflexivity. }
      destruct HN as [rest HN].
      rewrite (python_equivalent_state max_steps self n0 rest factors
                 HN Hfact).
      unfold python_equivalent, python_program. run_method.
      cbn [N set_registers registers f]. rewrite Hfirst, Hfact.
      cbn [N set_registers registers f].
      rewrite overlay_twice by (apply (factorize_NoDup n0 factors Hfact)).
      reflexivity.
    + assert (Hsame : snd (python_equivalent max_steps self) = self).
      { unfold python_equivalent, python_program. run_method.
        rewrite Hfirst, Hfact. reflexivity. }
      rewrite Hsame. reflexivity.
    + assert (Hsame : snd (python_equivalent max_steps self) = self).
      { unfold python_equivalent, python_program. run_method.
        rewrite Hfirst, Hfact. reflexivity. }
      rewrite Hsame. reflexivity.
  - assert (Hsame : snd (python_equivalent max_steps self) = self).
    { unfold python_equivalent, python_program. run_method.
      rewrite Hfirst. reflexivity. }
    rewrite Hsame. reflexivity.
  - assert (Hsame : snd (python_equivalent max_steps self) = self).
    { unfold python_equivalent, python_program. run_method.
      rewrite Hfirst. reflexivity. }
    rewrite Hsame. reflexivity.
Qed.

(** ** A fraction of denominator 1 before the end of the program *)

Lemma conditional_ok_after_else (body : list string) :
  forall (block : bool) (head : string) (rest : list string),
    Forall (fun line => prefix (tab ++ tab) line = true) body ->
    prefix (tab ++ tab) head = false ->
    clause_of head = ElifClause \/ clause_of head = ElseClause ->
    conditional_ok false block (body ++ head :: rest) = false.
Proof.
  induction body as [|line body IH]; intros block head rest Hbody Hhead Hkind.
  - cbn [app conditional_ok]. rewrite Hhead.
    destruct block; [reflexivity|].
    destruct Hkind as [-> | ->]; reflexivity.
  - inversion Hbody as [|? ? Hline Hbody']; subst.
    cbn [app conditional_ok]. rewrite Hline. apply IH; assumption.
Qed.

Lemma conditional_ok_doomed (pre lines : list string) :
  (forall open block, conditional_ok open block lines = false) ->
  forall open block, conditional_ok open block (pre ++ lines) = false.
Proof.
  intros Hlines. induction pre as [|line pre IH]; intros open block;
    [apply Hlines|].
  cbn [app conditional_ok].
  destruct (prefix (tab ++ tab) line); [apply IH|].
  destruct block; [reflexivity|].
  destruct (clause_of line); rewrite IH;
    try reflexivity; apply andb_false_r.
Qed.

Lemma else_then_clause (head : string) (body : list string) (head' : string)
      (rest : list string) :
  prefix (tab ++ tab) head = false ->
  clause_of head = ElseClause ->
  Forall (fun line => prefix (tab ++ tab) line = true) body ->
  prefix (tab ++ tab) head' = false ->
  clause_of head' = ElifClause \/ clause_of head' = ElseClause ->
  forall open block,
    conditional_ok open block (head :: body ++ head' :: rest) = false.
Proof.
  intros Hhead Hclause Hbody Hhead' Hkind open block.
  cbn [conditional_ok]. rewrite Hhead. destruct block; [reflexivity|].
  rewrite Hclause.
  rewrite conditional_ok_after_else by assumption. apply andb_false_r.
Qed.

(** The lines of one fraction: a clause head and an indented body. *)
Lemma fraction_lines_shape (i : nat) (fr : Z * Z) (lines : list string)
      (endloop : bool) :
  fraction_lines i fr = Ok (lines, endloop) ->
  exists head body,
    lines = head :: body
    /\ prefix tab head = true
    /\ prefix (tab ++ tab) head = false
    /\ clause_of head
       = (if (i =? 0)%nat then IfClause
          else if snd fr =? 1 then ElseClause else ElifClause)
    /\ Forall (fun line => prefix (tab ++ tab) line = true) body
    /\ Forall (fun line => prefix tab line = true) body.
Proof.
  unfold fraction_lines.
  destruct (f_int.factorize (fst fr)) as [numerator| |]; try discriminate.
  destruct (f_int.factorize (snd fr)) as [denominator| |]; try discriminate.
  cbn [rbind].
  destruct (chr (Z.of_nat i + 65)) as [letter| |]; try discriminate.
  cbn [rbind]. intros [= <- <-].
  eexists. eexists. split; [reflexivity|].
  split; [|split; [|split; [|split]]].
  - destruct (i =? 0)%nat; [|destruct (snd fr =? 1)]; reflexivity.
  - destruct (i =? 0)%nat; [|destruct (snd fr =? 1)]; reflexivity.
  - destruct (i =? 0)%nat; [|destruct (snd fr =? 1)]; reflexivity.
  - destruct (fst fr =? 0).
    + constructor; [reflexivity | constructor].
    + apply Forall_app. split; apply Forall_map, Forall_forall;
        intros kv _; reflexivity.
  - destruct (fst fr =? 0).
    + constructor; [reflexivity | constructor].
    + apply Forall_app. split; apply Forall_map, Forall_forall;
        intros kv _; reflexivity.
Qed.

Lemma chain_lines_app (fs1 fs2 : list (Z * Z)) :
  forall (i : nat) (endloop : option bool) (out : list string)
         (final : option bool),
    chain_lines i (fs1 ++ fs2) endloop = Ok (out, final) ->
    exists out1 endloop1 out2,
      chain_lines i fs1 endloop = Ok (out1, endloop1)
      /\ chain_lines (i + List.length fs1) fs2 endloop1 = Ok (out2, final)
      /\ out = out1 ++ out2.
Proof.
  induction fs1 as [|fr fs1 IH]; intros i endloop out final.
  - cbn [app chain_lines List.length]. rewrite Nat.add_0_r. intros Hrun.
    exists [], endloop, out. split; [reflexivity|].
    split; [exact Hrun | reflexivity].
  - cbn [app chain_lines].
    destruct (fraction_lines i fr) as [[lines endloop']| |];
      try discriminate.
    cbn [rbind].
    destruct (chain_lines (S i) (fs1 ++ fs2) (Some endloop'))
      as [[more final']| |] eqn:Hrest; try discriminate.
    cbn [rbind]. intros [= <- <-].
    destruct (IH _ _ _ _ Hrest) as (out1 & endloop1 & out2 & H1 & H2 & ->).
    rewrite H1. cbn [rbind]. exists (lines ++ out1), endloop1, out2.
    split; [reflexivity|]. split.
    + cbn [List.length]. rewrite <- plus_n_Sm. exact H2.
    + rewrite app_assoc. reflexivity.
Qed.

Lemma filter_keep {A : Type} (p : A -> bool) (l : list A) :
  Forall (fun x => p x = true) l -> filter p l = l.
Proof.
  induction 1 as [|x l Hx _ IH]; cbn [filter]; [reflexivity|].
  rewrite Hx, IH. reflexivity.
Qed.

Lemma doomed_cons (line : string) (lines : list string) :
  (forall open block, conditional_ok open block (loop_body lines) = false) ->
  forall open block,
    conditional_ok open block (loop_body (line :: lines)) = false.
Proof.
  intros H. unfold loop_body in *. cbn [filter].
  destruct (prefix tab line); [|exact H].
  apply (conditional_ok_doomed [line]). exact H.
Qed.

Lemma doomed_app (pre lines : list string) :
  (forall open block, conditional_ok open block (loop_body lines) = false) ->
  forall open block,
    conditional_ok open block (loop_body (pre ++ lines)) = false.
Proof.
  intros H. unfold loop_body in *. rewrite filter_app.
  apply conditional_ok_doomed. exact H.
Qed.

Lemma doomed_else (head : string) (body : list string) (head' : string)
      (rest : list string) :
  prefix tab head = true ->
  prefix (tab ++ tab) head = false ->
  clause_of head = ElseClause ->
  Forall (fun line => prefix (tab ++ tab) line = true) body ->
  Forall (fun line => prefix tab line = true) body ->
  prefix tab head' = true ->
  prefix (tab ++ tab) head' = false ->
  clause_of head' = ElifClause \/ clause_of head' = ElseClause ->
  forall open block,
    conditional_ok open block (loop_body (head :: body ++ head' :: rest))
    = false.
Proof.
  intros Htab Hhead Hclause Hbody Hbody_tab Htab' Hhead' Hkind.
  unfold loop_body. cbn [filter]. rewrite Htab.
  rewrite filter_app, (filter_keep _ body Hbody_tab).
  cbn [filter]. rewrite Htab'.
  apply else_then_clause; assumption.
Qed.

(** X18.  The text is ill-formed whenever a fraction of denominator 1
    stands after the first and before the last fraction of the program:
    its [else:] clause is followed by the clause of the next fraction,
    which no conditional of the host language allows.  (The loop over the
    fractions goes on after [endloop] is set.) *)
Theorem else_before_end_ill_formed (max_steps : Z) (self self' : t)
        (lines : list string) (i : nat) (n : Z) (next : Z * Z) :
  (1 <= i)%nat ->
  nth_error (f self) i = Some (n, 1) ->
  nth_error (f self) (S i) = Some next ->
  python_program max_steps self = (Ok lines, self') ->
  conditional_ok false false (loop_body lines) = false.
Proof.
  intros Hi Hnth Hnext.
  destruct (nth_error_split _ _ Hnth) as (fs1 & fs2 & Hf & Hlen).
  rewrite Hf in Hnext.
  rewrite nth_error_app2 in Hnext by lia.
  replace (S i - List.length fs1)%nat with 1%nat in Hnext by lia.
  destruct fs2 as [|next' fs3]; [discriminate|].
  injection Hnext as ->.
  unfold python_program. run_method.
  destruct (first_entry (N self)) as [n0| |]; try discriminate.
  destruct (f_int.factorize n0) as [factors| |]; try discriminate.
  cbn [f set_registers registers].
  destruct (chain_lines 0 (f self) None) as [[chain final]| |] eqn:Hchain;
    try discriminate.
  cbn [fst snd].
  destruct (closing_lines final) as [closing| |]; try discriminate.
  intros [= <- _].
  rewrite Hf in Hchain.
  destruct (chain_lines_app _ _ _ _ _ _ Hchain)
    as (out1 & endloop1 & out2 & _ & Hrun2 & ->).
  cbn [chain_lines] in Hrun2.
  destruct (fraction_lines (0 + List.length fs1) (n, 1))
    as [[lines_i endloop_i]| |] eqn:Hlines_i; try discriminate.
  cbn [rbind] in Hrun2.
  destruct (fraction_lines (S (0 + List.length fs1)) next)
    as [[lines_n endloop_n]| |] eqn:Hlines_n; try discriminate.
  cbn [rbind] in Hrun2.
  destruct (chain_lines (S (S (0 + List.length fs1))) fs3 (Some endloop_n))
    as [[more final']| |]; try discriminate.
  cbn [rbind] in Hrun2. injection Hrun2 as <- _.
  destruct (fraction_lines_shape _ _ _ _ Hlines_i)
    as (head & body & -> & Htab & Hhead & Hclause & Hbody & Hbody_tab).
  destruct (fraction_lines_shape _ _ _ _ Hlines_n)
    as (head' & body' & -> & Htab' & Hhead' & Hclause' & _ & _).
  replace ((0 + List.length fs1 =? 0)%nat) with false in Hclause
    by (symmetry; apply Nat.eqb_neq; lia).
  cbn [snd Z.eqb Pos.eqb] in Hclause.
  cbn [Nat.eqb] in Hclause'.
  match goal with
  | |- conditional_ok false false (loop_body ?l) = false =>
      cut (forall open block, conditional_ok open block (loop_body l) = false);
      [intros H; apply H|]
  end.
  cbn [app]. do 2 apply doomed_cons. apply doomed_app.
  do 4 apply doomed_cons. rewrite <- app_assoc. apply doomed_app.
  cbn [app]. rewrite <- app_assoc. cbn [app].
  apply doomed_else; try assumption.
  rewrite Hclause'. destruct (snd next =? 1); [right | left]; reflexivity.
Qed.

Lemma else_before_end_ill_formed_witness :
  (1 <= 1)%nat
  /\ nth_error (f else_in_the_middle) 1 = Some (5, 1)
  /\ nth_error (f else_in_the_middle) 2 = Some (7, 3)
  /\ exists lines self',
      python_program 100 else_in_the_middle = (Ok lines, self')
      /\ conditional_ok false false (loop_body lines) = false.
Proof.
  assert (Hi : (1 <= 1)%nat) by lia.
  assert (Hnth : nth_error (f else_in_the_middle) 1 = Some (5, 1))
    by reflexivity.
  assert (Hnext : nth_error (f else_in_the_middle) 2 = Some (7, 3))
    by reflexivity.
  assert (Hrun : exists lines self',
             python_program 100 else_in_the_middle = (Ok lines, self'))
    by (eexists; eexists; vm_compute; reflexivity).
  destruct Hrun as (lines & self' & Hrun).
  split; [exact Hi|]. split; [exact Hnth|]. split; [exact Hnext|].
  exists lines, self'. split; [exact Hrun|].
  exact (else_before_end_ill_formed 100 else_in_the_middle self' lines
           1 5 (7, 3) Hi Hnth Hnext Hrun).
Defined.
